(** * websocket-chat backend: a shallow embedding of [backend/src/index.ts]

    The development follows the source file top to bottom: JavaScript
    strings and values, the constants and name pools, the pure validators,
    identity resolution, the history query and the message ingress handler.
    Everything the handlers do to the outside world (cookie, rate limiter,
    database, socket broadcast, log, reply) goes through a small state monad
    over a [World] that also records the order of those effects. *)

From Stdlib Require Import ZArith NArith List Ascii String Lia.
From stdpp Require Import base tactics option list numbers gmap sorting.

Set Default Proof Using "Type".
Local Open Scope N_scope.

(* ===================================================================== *)
(** ** JavaScript strings *)
(* ===================================================================== *)

(** A JavaScript string is a finite sequence of UTF-16 code units; its
    [length] is the number of code units.  *)
Abbreviation jsstring := (list N).

(** String literals of the source, written as Rocq strings. *)
Definition lit (s : string) : jsstring :=
  N_of_ascii <$> list_ascii_of_string s.

(** ECMAScript [WhiteSpace] and [LineTerminator] code points: what
    [String.prototype.trim] (and the prefix skipping of [parseInt]) remove. *)
Definition isWhiteSpace (c : N) : bool :=
  (c =? 0x0009) || (c =? 0x000B) || (c =? 0x000C) || (c =? 0x0020)
  || (c =? 0x00A0) || (c =? 0x1680)
  || ((0x2000 <=? c) && (c <=? 0x200A))
  || (c =? 0x202F) || (c =? 0x205F) || (c =? 0x3000) || (c =? 0xFEFF).

Definition isLineTerminator (c : N) : bool :=
  (c =? 0x000A) || (c =? 0x000D) || (c =? 0x2028) || (c =? 0x2029).

Definition isTrimmable (c : N) : bool := isWhiteSpace c || isLineTerminator c.

Fixpoint trimStart (s : jsstring) : jsstring :=
  match s with
  | [] => []
  | c :: rest => if isTrimmable c then trimStart rest else s
  end.

Definition trimEnd (s : jsstring) : jsstring := rev (trimStart (rev s)).

(** [String.prototype.trim]. *)
Definition trim (s : jsstring) : jsstring := trimEnd (trimStart s).

(** [Number.prototype.toString] on an integer: decimal digits, most
    significant first, a leading minus sign for a negative one. *)
Fixpoint digits_from (fuel : nat) (n : N) (acc : jsstring) : jsstring :=
  let acc' := (48 + n mod 10) :: acc in
  match fuel with
  | O => acc'
  | S fuel' => if n / 10 =? 0 then acc' else digits_from fuel' (n / 10) acc'
  end.

Definition digits (n : N) : jsstring :=
  digits_from (N.to_nat (N.log2 n)) n [].

Definition Number_toString (z : Z) : jsstring :=
  if (z <? 0)%Z then 45 :: digits (Z.to_N (- z)) else digits (Z.to_N z).

(** [String.prototype.padStart(targetLength, padString)]. *)
Fixpoint cycle_take (k : nat) (pad cur : jsstring) : jsstring :=
  match k with
  | O => []
  | S k' =>
      match cur with
      | c :: cur' => c :: cycle_take k' pad cur'
      | [] =>
          match pad with
          | c :: pad' => c :: cycle_take k' pad pad'
          | [] => []
          end
      end
  end.

Definition padStart (s : jsstring) (targetLength : nat) (padString : jsstring) : jsstring :=
  if (targetLength <=? length s)%nat then s
  else match padString with
       | [] => s
       | _ => cycle_take (targetLength - length s) padString padString ++ s
       end.

(* ===================================================================== *)
(** ** JavaScript values (what a parsed request body can hold) *)
(* ===================================================================== *)

(** A number is kept as an integer mantissa and a binary exponent
    (mantissa * 2^exponent); no operation of the source that is modelled on
    an [unknown] value looks inside it. *)
Inductive JSValue : Type :=
| JUndefined
| JNull
| JBoolean (b : bool)
| JNumber (mantissa exponent : Z)
| JString (s : jsstring)
| JArray (items : list JSValue)
| JObject (props : list JSProp)
with JSProp : Type :=
| Prop_ (name : jsstring) (value : JSValue).

Inductive JSType := TUndefined | TObject | TBoolean | TNumber | TString.

#[export] Instance JSType_eq_dec : EqDecision JSType.
Proof. solve_decision. Defined.

(** The [typeof] operator ([typeof null] is ["object"]). *)
Definition typeof (v : JSValue) : JSType :=
  match v with
  | JUndefined => TUndefined
  | JNull => TObject
  | JBoolean _ => TBoolean
  | JNumber _ _ => TNumber
  | JString _ => TString
  | JArray _ => TObject
  | JObject _ => TObject
  end.

Fixpoint own_property (props : list JSProp) (name : jsstring) : option JSValue :=
  match props with
  | [] => None
  | Prop_ n v :: rest => if decide (n = name) then Some v else own_property rest name
  end.

(** [v?.name] for a property name that no built-in prototype defines (the
    source reads [text] and [displayName] only): [undefined] on a nullish
    [v] by the optional chain, the own property of an object, and
    [undefined] on every other value, whose prototype chain has no such
    property. *)
Definition optional_member (v : JSValue) (name : jsstring) : JSValue :=
  match v with
  | JUndefined | JNull => JUndefined
  | JObject props => default JUndefined (own_property props name)
  | JBoolean _ | JNumber _ _ | JString _ | JArray _ => JUndefined
  end.

(* ===================================================================== *)
(** ** Constants and name pools *)
(* ===================================================================== *)

Definition IDENTITY_COOKIE_NAME : jsstring := lit "anon_chat_identity".
Definition MESSAGE_MAX_LENGTH : nat := 1000.
Definition NAME_MAX_LENGTH : nat := 64.
Definition HISTORY_MAX_LIMIT : Z := 200.
Definition IDENTITY_MAX_AGE_SECONDS : Z := 60 * 60 * 24 * 365.

Definition adjectivePool : list jsstring :=
  lit <$> ["Silent"; "Swift"; "Mellow"; "Curious"; "Bright";
           "Calm"; "Clever"; "Gentle"; "Brisk"; "Kind"]%string.

Definition nounPool : list jsstring :=
  lit <$> ["River"; "Panda"; "Cloud"; "Falcon"; "Leaf";
           "Otter"; "Comet"; "Maple"; "Sparrow"; "Fox"]%string.

(* ===================================================================== *)
(** ** The validators *)
(* ===================================================================== *)

(** [{ ok: true, value }] or [{ ok: false, message }]. *)
Inductive ValidationResult : Type :=
| Valid (value : jsstring)
| Invalid (message : jsstring).

Definition trimAndValidateText (rawText : JSValue) : ValidationResult :=
  match rawText with
  | JString rawText =>
      let text := trim rawText in
      if (length text =? 0)%nat then Invalid (lit "text cannot be empty")
      else if (MESSAGE_MAX_LENGTH <? length text)%nat then
        Invalid (lit "text must be <= " ++ Number_toString (Z.of_nat MESSAGE_MAX_LENGTH)
                   ++ lit " characters")
      else Valid text
  | _ => Invalid (lit "text must be a string")
  end.

Definition trimAndValidateDisplayName (rawDisplayName : JSValue) (fallbackUsername : jsstring)
  : ValidationResult :=
  match rawDisplayName with
  | JUndefined | JNull => Valid fallbackUsername
  | JString rawDisplayName =>
      let displayName := trim rawDisplayName in
      if (length displayName =? 0)%nat then Valid fallbackUsername
      else if (NAME_MAX_LENGTH <? length displayName)%nat then
        Invalid (lit "displayName must be <= " ++ Number_toString (Z.of_nat NAME_MAX_LENGTH)
                   ++ lit " characters")
      else Valid displayName
  | _ => Invalid (lit "displayName must be a string")
  end.

(* ===================================================================== *)
(** ** Numbers read from the query string *)
(* ===================================================================== *)

(** The integer-valued results [Number.parseInt] can produce, with [-0]
    identified with [0]. *)
Inductive JSNumber : Type :=
| NaN
| Finite (value : Z)
| PosInfinity
| NegInfinity.

(** The Number value of a mathematical integer: rounded to 53 significant
    bits, ties to even, and infinite from [2^1024] on after rounding. *)
Definition round_to_double (m : Z) : JSNumber :=
  let a := Z.abs m in
  let bits := (Z.log2 a + 1)%Z in
  if (bits <=? 53)%Z then Finite m
  else
    let shift := (bits - 53)%Z in
    let q := Z.shiftr a shift in
    let r := Z.land a (Z.ones shift) in
    let half := Z.shiftl 1 (shift - 1) in
    let q' := if (half <? r)%Z || ((r =? half)%Z && Z.odd q) then (q + 1)%Z else q in
    let v := Z.shiftl q' shift in
    if (2 ^ 1024 <=? v)%Z then (if (m <? 0)%Z then NegInfinity else PosInfinity)
    else Finite (Z.sgn m * v).

Definition isDigit (c : N) : bool := (48 <=? c) && (c <=? 57).

Fixpoint leading_digits (s : jsstring) : jsstring :=
  match s with
  | c :: rest => if isDigit c then c :: leading_digits rest else []
  | [] => []
  end.

Definition digits_value (ds : jsstring) : N :=
  fold_left (fun acc c => acc * 10 + (c - 48)) ds 0.

(** [Number.parseInt(string, 10)]: skip leading white space, read an
    optional sign, then the longest prefix of decimal digits; no digit at
    all gives [NaN]. *)
Definition Number_parseInt (string : jsstring) : JSNumber :=
  let s := trimStart string in
  let '(sign, s) :=
    match s with
    | c :: rest =>
        if c =? 45 then ((-1)%Z, rest)
        else if c =? 43 then (1%Z, rest)
        else (1%Z, s)
    | [] => (1%Z, s)
    end in
  let z := leading_digits s in
  if (length z =? 0)%nat then NaN
  else round_to_double (sign * Z.of_N (digits_value z)).

Definition Number_isFinite (x : JSNumber) : bool :=
  match x with Finite _ => true | _ => false end.

(** [Math.min] and [Math.max] of an integer constant and a number. *)
Definition Math_min (a : Z) (x : JSNumber) : JSNumber :=
  match x with
  | NaN => NaN
  | Finite v => Finite (Z.min a v)
  | PosInfinity => Finite a
  | NegInfinity => NegInfinity
  end.

Definition Math_max (a : Z) (x : JSNumber) : JSNumber :=
  match x with
  | NaN => NaN
  | Finite v => Finite (Z.max a v)
  | PosInfinity => PosInfinity
  | NegInfinity => Finite a
  end.

(* ===================================================================== *)
(** ** Messages *)
(* ===================================================================== *)

(** A row of the [Message] table; [createdAt] in milliseconds since the
    epoch. *)
Record MessageRow : Type := {
  row_id : jsstring;
  row_text : jsstring;
  row_username : jsstring;
  row_displayName : option jsstring;
  row_createdAt : Z;
}.

Record MessageDTO : Type := {
  id : jsstring;
  text : jsstring;
  username : jsstring;
  displayName : jsstring;
  createdAt : jsstring;
}.

(** One draw of [Math.random()]: a double in [0, 1), that is
    [numerator / 2^(53 + exponent)] with a significand below [2^53] and an
    exponent down to the smallest the format has ([53 + 1021 = 1074]). *)
Record draw : Type := {
  numerator : N;
  exponent : N;
  numerator_lt : (numerator <? 2 ^ 53) = true;
  exponent_le : (exponent <=? 1021) = true;
}.

(** A non-negative integer rounded to 53 significant bits, ties to even:
    what a double operation does to the significand of its exact result. *)
Definition round_significand (a : Z) : Z :=
  let bits := (Z.log2 a + 1)%Z in
  if (bits <=? 53)%Z then a
  else
    let shift := (bits - 53)%Z in
    let q := Z.shiftr a shift in
    let r := Z.land a (Z.ones shift) in
    let half := Z.shiftl 1 (shift - 1) in
    let q' := if (half <? r)%Z || ((r =? half)%Z && Z.odd q) then (q + 1)%Z else q in
    Z.shiftl q' shift.

(** [Math.floor(Math.random() * n)] for an integer [n] that is a double
    (an array length, [10000]).  The product is a double operation: its
    exact value [numerator * n / 2^(53 + exponent)] is rounded to the
    nearest double, ties to even, before [Math.floor] is taken.  Scaling by
    a power of two does not change the rounding of the significand, and
    the result is neither subnormal (the exponent is at most 1021) nor out
    of range. *)
Definition floor_times (r : draw) (n : N) : N :=
  Z.to_N (round_significand (Z.of_N (numerator r) * Z.of_N n)
          / 2 ^ (53 + Z.of_N (exponent r))).

(** [{ valid, renew, value }] as [request.unsignCookie] returns it. *)
Record UnsignResult : Type := {
  valid : bool;
  renew : bool;
  value : option jsstring;
}.

(** The library functions and the deployment setting the handlers rely on:
    [request.unsignCookie] of the cookie plug-in (keyed by the cookie
    secret), [Date.prototype.toISOString], and [COOKIE_SECURE]. *)
Class Platform : Type := {
  unsignCookie : jsstring -> UnsignResult;
  toISOString : Z -> jsstring;
  COOKIE_SECURE : bool;
}.

(** The object [createRateLimiter] returns, as the handler uses it: one
    method [check(key)], which reads the clock and updates the limiter. *)
Class RateLimiter (L : Type) : Type :=
  check : Z -> jsstring -> L -> bool * L.

(** Modelled from the spec: [createRateLimiter] of [./rate-limit.js], which
    [index.ts] imports and which is not among the source files.  The spec
    (sections 3 and 4.2) describes a fixed-window counter: per key a count
    and a window-start timestamp, created lazily on the first check of the
    key and mutated on every check; a check observed once the window of
    duration [W] has elapsed resets the counter and starts a new window;
    the check is admitted while the count stays within the cap [N]. *)
Record RateWindow : Type := {
  count : nat;
  windowStart : Z;
}.

Record FixedWindow : Type := {
  windowMs : Z;
  maxRequests : Z;
  windows : gmap jsstring RateWindow;
}.

Definition createRateLimiter (windowMs maxRequests : Z) : FixedWindow :=
  {| windowMs := windowMs; maxRequests := maxRequests; windows := ∅ |}.

Definition current_window (rl : FixedWindow) (now : Z) (key : jsstring) : RateWindow :=
  match windows rl !! key with
  | Some w =>
      if (now - windowStart w <? windowMs rl)%Z then w
      else {| count := 0; windowStart := now |}
  | None => {| count := 0; windowStart := now |}
  end.

Definition FixedWindow_check (now : Z) (key : jsstring) (rl : FixedWindow)
  : bool * FixedWindow :=
  let w := current_window rl now key in
  let w' := {| count := S (count w); windowStart := windowStart w |} in
  ((Z.of_nat (count w') <=? maxRequests rl)%Z,
   {| windowMs := windowMs rl; maxRequests := maxRequests rl;
      windows := <[key := w']> (windows rl) |}).

#[export] Instance FixedWindow_RateLimiter : RateLimiter FixedWindow :=
  FixedWindow_check.

(** A sequence of checks [(now, key)] against one limiter, oldest first:
    the admission outcomes in the same order, and the limiter left behind. *)
Fixpoint run_checks {L} {RL : RateLimiter L} (calls : list (Z * jsstring)) (rl : L)
  : list bool * L :=
  match calls with
  | [] => ([], rl)
  | (now, key) :: rest =>
      let '(ok, rl') := check now key rl in
      let '(oks, rl'') := run_checks rest rl' in
      (ok :: oks, rl'')
  end.

(** The outcomes that belong to the calls of one key. *)
Fixpoint outcomes_of (key : jsstring) (calls : list (Z * jsstring)) (oks : list bool)
  : list bool :=
  match calls, oks with
  | (_, k) :: calls', ok :: oks' =>
      if decide (k = key) then ok :: outcomes_of key calls' oks'
      else outcomes_of key calls' oks'
  | _, _ => []
  end.

Definition calls_of (key : jsstring) (calls : list (Z * jsstring)) : list (Z * jsstring) :=
  filter (fun c => c.2 = key) calls.

(* ===================================================================== *)
(** ** Requests, replies and the world the handlers act on *)
(* ===================================================================== *)

Record CookieOptions : Type := {
  path : jsstring;
  httpOnly : bool;
  sameSite : jsstring;
  secure : bool;
  signed : bool;
  maxAge : Z;
}.

(** The JSON bodies the handlers send. *)
Inductive Body : Type :=
| MessageBody (payload : MessageDTO)
| MessagesBody (messages : list MessageDTO)
| IdentityBody (username : jsstring)
| ErrorBody (error message : jsstring).

Record Response : Type := {
  status : nat;
  body : Body;
}.

(** What a handler does to its surroundings, in the order it does it. *)
Inductive Effect : Type :=
| SetCookie (name value : jsstring) (options : CookieOptions)
| RateCheck (key : jsstring) (canProceed : bool)
| DbCreate (id text username displayName : jsstring) (created : bool)
| DbFindMany (take : JSNumber)
| Emit (event : jsstring) (payload : MessageDTO)
| LogError (error message : jsstring)
| Send (code : nat) (body : Body).

(** The parts of a Fastify request the handlers read. *)
Record Request : Type := {
  cookies : gmap jsstring jsstring;
  query_limit : option jsstring;
  request_body : JSValue;
  ip : option jsstring;
}.

Definition with_body (request : Request) (body : JSValue) : Request :=
  {| cookies := cookies request; query_limit := query_limit request;
     request_body := body; ip := ip request |}.

(** What Fastify's content-type parser leaves for a [POST] request before
    the route handler is called: the value [request.body] is set to, or
    the error the parser raised. *)
Inductive ParsedBody : Type :=
| BodyParsed (body : JSValue)
| BodyRejected (error : jsstring).

(** Fastify on a [POST] that carries no payload.  Without a [Content-Type]
    header nothing is parsed and [request.body] stays [undefined]; under
    [Content-Type: application/json] the built-in JSON parser refuses the
    empty payload with the error [FST_ERR_CTP_EMPTY_JSON_BODY]. *)
Definition parse_empty_payload (applicationJson : bool) : ParsedBody :=
  if applicationJson then BodyRejected (lit "FST_ERR_CTP_EMPTY_JSON_BODY")
  else BodyParsed JUndefined.

(** What one request draws from outside the program: the three successive
    results of [Math.random()], [randomUUID()], the clock the rate limiter
    reads, and the database's answer to the one call the handler makes
    ([Some e]: the call fails with [e]; the timestamp is the column default
    of a created row). *)
Record Env : Type := {
  random1 : draw;
  random2 : draw;
  random3 : draw;
  uuid : jsstring;
  now : Z;
  db_error : option jsstring;
  db_now : Z;
}.

Section Handlers.
Context {L : Type} {RL : RateLimiter L} {P : Platform}.

(** The rate limiter, the [Message] table (in insertion order) and the
    effects so far, oldest first. *)
Record World : Type := {
  rateLimiter : L;
  table : list MessageRow;
  trace : list Effect;
}.

Inductive Outcome (A : Type) : Type :=
| Returned (a : A)
| Thrown (error : jsstring).
Global Arguments Returned {A} a.
Global Arguments Thrown {A} error.

(** Handlers thread the world and either return or throw. *)
Definition M (A : Type) : Type := World -> Outcome A * World.

Definition ret {A} (a : A) : M A := fun w => (Returned a, w).

Definition bind {A B} (c : M A) (k : A -> M B) : M B :=
  fun w =>
    match c w with
    | (Returned a, w') => k a w'
    | (Thrown e, w') => (Thrown e, w')
    end.

Definition try_catch {A} (block : M A) (handler : jsstring -> M A) : M A :=
  fun w =>
    match block w with
    | (Returned a, w') => (Returned a, w')
    | (Thrown e, w') => handler e w'
    end.

Definition tell (e : Effect) : M unit :=
  fun w =>
    (Returned tt,
     {| rateLimiter := rateLimiter w; table := table w; trace := trace w ++ [e] |}).

End Handlers.

Global Arguments World L : clear implicits.
Global Arguments M L A : clear implicits.

Notation "x <- c ;; k" := (bind c (fun x => k))
  (at level 62, c at next level, right associativity).
Notation "c ;;; k" := (bind c (fun _ => k))
  (at level 62, right associativity).

Section Backend.
Context {L : Type} {RL : RateLimiter L} {P : Platform}.

Definition reply_setCookie (name value : jsstring) (options : CookieOptions) : M L unit :=
  tell (SetCookie name value options).

Definition reply_send (code : nat) (b : Body) : M L Response :=
  tell (Send code b) ;;; ret {| status := code; body := b |}.

Definition io_emit (event : jsstring) (payload : MessageDTO) : M L unit :=
  tell (Emit event payload).

Definition log_error (error message : jsstring) : M L unit :=
  tell (LogError error message).

Definition rateLimiter_check (env : Env) (key : jsstring) : M L bool :=
  fun w =>
    let '(ok, rl) := check (now env) key (rateLimiter w) in
    (Returned ok,
     {| rateLimiter := rl; table := table w; trace := trace w ++ [RateCheck key ok] |}).

(** [prisma.message.create({ data })]: the row is appended with the
    database's timestamp and returned, or the call throws and the table is
    left as it was. *)
Definition prisma_message_create (env : Env) (id text username displayName : jsstring)
  : M L MessageRow :=
  fun w =>
    match db_error env with
    | Some e =>
        (Thrown e,
         {| rateLimiter := rateLimiter w; table := table w;
            trace := trace w ++ [DbCreate id text username displayName false] |})
    | None =>
        let row := {| row_id := id; row_text := text; row_username := username;
                      row_displayName := Some displayName;
                      row_createdAt := db_now env |} in
        (Returned row,
         {| rateLimiter := rateLimiter w; table := table w ++ [row];
            trace := trace w ++ [DbCreate id text username displayName true] |})
    end.

(** Newest first: [x] may come before [y] when [x] is at least as recent. *)
Definition newer_first (x y : MessageRow) : Prop :=
  (row_createdAt y <= row_createdAt x)%Z.

#[export] Instance newer_first_dec x y : Decision (newer_first x y).
Proof. unfold newer_first. apply _. Defined.

(** [prisma.message.findMany({ orderBy: { createdAt: "desc" }, take })]:
    the table sorted newest first, cut to its first [take] rows.  The
    handler passes a count between 1 and 200; another argument is outside
    what is modelled and raises. *)
Definition prisma_message_findMany_desc (env : Env) (take : JSNumber) : M L (list MessageRow) :=
  fun w =>
    let w' := {| rateLimiter := rateLimiter w; table := table w;
                 trace := trace w ++ [DbFindMany take] |} in
    match db_error env, take with
    | Some e, _ => (Thrown e, w')
    | None, Finite n =>
        if (0 <=? n)%Z then
          (Returned (firstn (Z.to_nat n) (merge_sort newer_first (table w))), w')
        else (Thrown (lit "invalid take"), w')
    | None, _ => (Thrown (lit "invalid take"), w')
    end.

Definition normalizeMessage (message : MessageRow) : MessageDTO :=
  {| id := row_id message;
     text := row_text message;
     username := row_username message;
     displayName := default (row_username message) (row_displayName message);
     createdAt := toISOString (row_createdAt message) |}.

Definition getClientKey (ipAddress username : jsstring) : jsstring :=
  ipAddress ++ lit ":" ++ username.

Definition generateUsername (env : Env) : jsstring :=
  let adjective :=
    nth (N.to_nat (floor_times (random1 env) (N.of_nat (length adjectivePool))))
        adjectivePool (lit "undefined") in
  let noun :=
    nth (N.to_nat (floor_times (random2 env) (N.of_nat (length nounPool))))
        nounPool (lit "undefined") in
  let suffix :=
    padStart (Number_toString (Z.of_N (floor_times (random3 env) 10000))) 4 (lit "0") in
  adjective ++ lit "-" ++ noun ++ lit "-" ++ suffix.

Definition identity_cookie_options : CookieOptions :=
  {| path := lit "/"; httpOnly := true; sameSite := lit "lax";
     secure := COOKIE_SECURE; signed := true; maxAge := IDENTITY_MAX_AGE_SECONDS |}.

Definition ensureIdentity (env : Env) (request : Request) : M L jsstring :=
  let signedCookie := cookies request !! IDENTITY_COOKIE_NAME in
  let early :=
    match signedCookie with
    | Some signedCookie =>
        if (0 <? length signedCookie)%nat then
          let unsigned := unsignCookie signedCookie in
          match value unsigned with
          | Some v => if valid unsigned && (0 <? length v)%nat then Some v else None
          | None => None
          end
        else None
    | None => None
    end in
  match early with
  | Some v => ret v
  | None =>
      let username := generateUsername env in
      reply_setCookie IDENTITY_COOKIE_NAME username identity_cookie_options ;;;
      ret username
  end.

(** [GET /messages]. *)
Definition get_messages (env : Env) (request : Request) : M L Response :=
  ensureIdentity env request ;;;
  let rawLimit :=
    Number_parseInt (default (Number_toString HISTORY_MAX_LIMIT) (query_limit request)) in
  let limit :=
    if Number_isFinite rawLimit
    then Math_max 1 (Math_min HISTORY_MAX_LIMIT rawLimit)
    else Finite HISTORY_MAX_LIMIT in
  rows <- prisma_message_findMany_desc env limit ;;
  let messages := normalizeMessage <$> rev rows in
  reply_send 200 (MessagesBody messages).

(** [GET /identity]. *)
Definition get_identity (env : Env) (request : Request) : M L Response :=
  username <- ensureIdentity env request ;;
  reply_send 200 (IdentityBody username).

(** [POST /messages]. *)
Definition post_messages (env : Env) (request : Request) : M L Response :=
  username <- ensureIdentity env request ;;
  match trimAndValidateText (optional_member (request_body request) (lit "text")) with
  | Invalid message => reply_send 400 (ErrorBody (lit "validation_error") message)
  | Valid text =>
      match trimAndValidateDisplayName
              (optional_member (request_body request) (lit "displayName")) username with
      | Invalid message => reply_send 400 (ErrorBody (lit "validation_error") message)
      | Valid displayName =>
          let clientIp := default (lit "unknown") (ip request) in
          canProceed <- rateLimiter_check env (getClientKey clientIp username) ;;
          if negb canProceed then
            reply_send 429
              (ErrorBody (lit "rate_limit_exceeded") (lit "Too many messages, slow down."))
          else
            try_catch
              (created <- prisma_message_create env (uuid env) text username displayName ;;
               let payload := normalizeMessage created in
               io_emit (lit "messages:new") payload ;;;
               reply_send 201 (MessageBody payload))
              (fun error =>
                 log_error error (lit "Could not create message") ;;;
                 reply_send 500
                   (ErrorBody (lit "server_error") (lit "Could not persist message")))
      end
  end.

(** [app.setErrorHandler]: where an error a handler lets escape ends up. *)
Definition errorHandler (error : jsstring) : M L Response :=
  log_error error (lit "Unhandled request error") ;;;
  reply_send 500 (ErrorBody (lit "server_error") (lit "Internal server error")).

(** A route as the framework runs it: the handler, and the error handler
    for whatever the handler throws. *)
Definition serve (handler : M L Response) : M L Response :=
  try_catch handler errorHandler.

(** [POST /messages] from the framework's side.  Fastify parses the body
    before it calls the route handler: a parsed body becomes
    [request.body] and the handler runs; an error of the parser is passed
    to the error handler set with [app.setErrorHandler] and the route
    handler is not called. *)
Definition post_messages_route (parsed : ParsedBody) (env : Env) (request : Request)
  : M L Response :=
  match parsed with
  | BodyParsed body => serve (post_messages env (with_body request body))
  | BodyRejected error => errorHandler error
  end.

End Backend.

(* ===================================================================== *)
(** ** Vocabulary of the statements *)
(* ===================================================================== *)

(** The socket broadcasts among some effects. *)
Definition emitted (es : list Effect) : list (jsstring * MessageDTO) :=
  omap (fun e => match e with Emit event payload => Some (event, payload) | _ => None end) es.

(** The shape [Adjective-Noun-DDDD]. *)
Definition username_pattern (s : jsstring) : Prop :=
  exists adjective noun d1 d2 d3 d4,
    adjective ∈ adjectivePool /\ noun ∈ nounPool
    /\ isDigit d1 = true /\ isDigit d2 = true /\ isDigit d3 = true /\ isDigit d4 = true
    /\ s = adjective ++ lit "-" ++ noun ++ lit "-" ++ [d1; d2; d3; d4].

Definition four_digits (s : jsstring) : bool :=
  match s with
  | [d1; d2; d3; d4] => isDigit d1 && isDigit d2 && isDigit d3 && isDigit d4
  | _ => false
  end.

(** A request body that is missing, or is not an object with a [text]
    property. *)
Definition lacks_text (b : JSValue) : Prop :=
  match b with
  | JObject props => own_property props (lit "text") = None
  | _ => True
  end.

(** The identity cookie of a request verifies and carries the non-empty
    value [u]. *)
Definition carries_identity {P : Platform} (request : Request) (u : jsstring) : Prop :=
  exists signedCookie,
    cookies request !! IDENTITY_COOKIE_NAME = Some signedCookie
    /\ signedCookie <> []
    /\ valid (unsignCookie signedCookie) = true
    /\ value (unsignCookie signedCookie) = Some u
    /\ u <> [].

(** The same request without its identity cookie. *)
Definition without_identity_cookie (request : Request) : Request :=
  {| cookies := delete IDENTITY_COOKIE_NAME (cookies request);
     query_limit := query_limit request;
     request_body := request_body request;
     ip := ip request |}.

(** The number of messages a query string asks for, as the interface
    states it: [min(200, max(1, N))] when the [limit] parameter reads as the
    finite number [N], and 200 when it is absent or reads as no finite
    number. *)
Definition history_limit (limit : option jsstring) : Z :=
  match limit with
  | None => 200
  | Some s =>
      match Number_parseInt s with
      | Finite n => Z.min 200 (Z.max 1 n)
      | _ => 200
      end
  end.

(** The world after some more effects. *)
Definition after {L} (w : World L) (es : list Effect) : World L :=
  {| rateLimiter := rateLimiter w; table := table w; trace := trace w ++ es |}.

(** Oldest first. *)
Definition older_first (x y : MessageRow) : Prop :=
  (row_createdAt x <= row_createdAt y)%Z.

(* ===================================================================== *)
(** ** A concrete platform for worked examples *)
(* ===================================================================== *)

(** A stand-in for the cookie signer, in the plug-in's format
    [value.signature]: the signature is a keyed checksum of the value. *)
Definition example_signature (v : jsstring) : jsstring :=
  digits (fold_left (fun acc c => (31 * acc + c) mod 65521) v 4099).

Definition example_sign (v : jsstring) : jsstring :=
  v ++ lit "." ++ example_signature v.

(** Split at the last ["."]. *)
Fixpoint split_last_dot (s : jsstring) : option (jsstring * jsstring) :=
  match s with
  | [] => None
  | c :: rest =>
      match split_last_dot rest with
      | Some (v, sig) => Some (c :: v, sig)
      | None => if c =? 46 then Some ([], rest) else None
      end
  end.

Definition example_unsign (signedCookie : jsstring) : UnsignResult :=
  match split_last_dot signedCookie with
  | Some (v, sig) =>
      if decide (sig = example_signature v)
      then {| valid := true; renew := false; value := Some v |}
      else {| valid := false; renew := false; value := None |}
  | None => {| valid := false; renew := false; value := None |}
  end.

Definition example_platform : Platform :=
  {| unsignCookie := example_unsign;
     toISOString := fun t => Number_toString t;
     COOKIE_SECURE := false |}.

(** The draw [k / 2^53]; the draws of [0.5, 1) all have this form. *)
Definition example_draw (k : N) (H : (k <? 2 ^ 53) = true) : draw :=
  {| numerator := k; exponent := 0; numerator_lt := H; exponent_le := eq_refl |}.

Definition example_env : Env :=
  {| random1 := example_draw (2 ^ 52) eq_refl;
     random2 := example_draw (2 ^ 53 - 1) eq_refl;
     random3 := example_draw (2 ^ 40) eq_refl;
     uuid := lit "id-1";
     now := 1000;
     db_error := None;
     db_now := 5000 |}.

Definition example_request (body : JSValue) : Request :=
  {| cookies := ∅; query_limit := None; request_body := body; ip := Some (lit "10.0.0.1") |}.

Definition example_request_with_cookie (signedCookie : jsstring) : Request :=
  {| cookies := {[ IDENTITY_COOKIE_NAME := signedCookie ]}; query_limit := None;
     request_body := JObject [Prop_ (lit "displayName") (JString (lit "Al"))];
     ip := None |}.

Definition example_world : World FixedWindow :=
  {| rateLimiter := createRateLimiter 10000 10; table := []; trace := [] |}.

(* ===================================================================== *)
(** ** The rest of the backend: allowed origins, stored rows, cookies *)
(* ===================================================================== *)

(** [String.prototype.split(separator)] for a separator of one code unit:
    the pieces between the separators, [[""]] for the empty string. *)
Fixpoint split_on (separator : N) (s : jsstring) : list jsstring :=
  match s with
  | [] => [[]]
  | c :: rest =>
      if c =? separator then [] :: split_on separator rest
      else match split_on separator rest with
           | piece :: pieces => (c :: piece) :: pieces
           | [] => [[c]]
           end
  end.

(** [Array.prototype.join(separator)]. *)
Fixpoint join_with (separator : jsstring) (pieces : list jsstring) : jsstring :=
  match pieces with
  | [] => []
  | [piece] => piece
  | piece :: rest => piece ++ separator ++ join_with separator rest
  end.

(** [CORS_ORIGIN.split(",").map((origin) => origin.trim()).filter(Boolean)],
    for the configured [CORS_ORIGIN]. *)
Definition allowedOrigins (CORS_ORIGIN : jsstring) : list jsstring :=
  filter (fun origin => origin <> []) (trim <$> split_on 44 CORS_ORIGIN).

(** What the [origin] function of the CORS registration hands to its
    callback: [callback(null, true)], or
    [callback(new Error("Origin not allowed"), false)]. *)
Inductive CorsVerdict : Type :=
| OriginAllowed
| OriginRefused (error : jsstring).

Definition cors_origin (allowed : list jsstring) (origin : option jsstring) : CorsVerdict :=
  match origin with
  | None => OriginAllowed
  | Some origin =>
      if (length origin =? 0)%nat || bool_decide (origin ∈ allowed) then OriginAllowed
      else OriginRefused (lit "Origin not allowed")
  end.

(** What can be said of every row [POST /messages] creates. *)
Definition stored_well (row : MessageRow) : Prop :=
  trim (row_text row) = row_text row
  /\ (1 <= length (row_text row) <= 1000)%nat
  /\ row_username row <> []
  /\ exists d, row_displayName row = Some d /\ d <> []
               /\ (d = row_username row \/ (trim d = d /\ (length d <= 64)%nat)).

(** The cookies a client holds after a reply: those it held, overwritten
    by the reply's [setCookie] calls in order; a cookie set with
    [signed: true] is stored in the form the signer gives it. *)
Definition store_cookies (signCookie : jsstring -> jsstring) (es : list Effect)
    (jar : gmap jsstring jsstring) : gmap jsstring jsstring :=
  foldl (fun jar e =>
           match e with
           | SetCookie name v options =>
               <[name := if signed options then signCookie v else v]> jar
           | _ => jar
           end) jar es.

(** The next request of the same client. *)
Definition following_request (signCookie : jsstring -> jsstring) (es : list Effect)
    (request next : Request) : Request :=
  {| cookies := store_cookies signCookie es (cookies request);
     query_limit := query_limit next;
     request_body := request_body next;
     ip := ip next |}.

(** Effects a read-only route may have: a cookie, a query, a log line and
    the reply. *)
Definition read_only_effect (e : Effect) : Prop :=
  match e with
  | SetCookie _ _ _ | DbFindMany _ | LogError _ _ | Send _ _ => True
  | RateCheck _ _ | DbCreate _ _ _ _ _ | Emit _ _ => False
  end.

(* ===================================================================== *)
(** ** The chat client ([App.vue], script part) *)
(* ===================================================================== *)

Module Frontend.

Definition USERNAME_STORAGE_KEY : jsstring := lit "anon-chat-username".
Definition DISPLAY_NAME_STORAGE_KEY : jsstring := lit "anon-chat-display-name".
Definition MAX_TEXT_LENGTH : nat := 1000.

(** The refs of the component that the modelled functions touch, and the
    browser's [localStorage]. *)
Record State : Type := {
  messageText : jsstring;
  username : jsstring;
  displayName : jsstring;
  errorMessage : jsstring;
  isSending : bool;
  localStorage : gmap jsstring jsstring;
}.

(** [s.slice(0, n)]. *)
Definition slice0 (s : jsstring) (n : nat) : jsstring := firstn n s.

(** [a || b] on strings: the empty string is falsy. *)
Definition or_else (a b : jsstring) : jsstring :=
  match a with [] => b | _ => a end.

(** The client's [generateUsername] has the text of the backend's, over
    pools with the same entries. *)
Definition generateUsername (env : Env) : jsstring := generateUsername env.

Definition loadIdentity (env : Env) (st : State) : State :=
  let savedUsername := trim <$> (localStorage st !! USERNAME_STORAGE_KEY) in
  let savedDisplayName := trim <$> (localStorage st !! DISPLAY_NAME_STORAGE_KEY) in
  let '(username, storage) :=
    match savedUsername with
    | Some (c :: rest) => (slice0 (c :: rest) 64, localStorage st)
    | _ =>
        let fresh := generateUsername env in
        (fresh, <[USERNAME_STORAGE_KEY := fresh]> (localStorage st))
    end in
  let displayName := slice0 (or_else (default [] savedDisplayName) username) 64 in
  {| messageText := messageText st;
     username := username;
     displayName := displayName;
     errorMessage := errorMessage st;
     isSending := isSending st;
     localStorage := <[DISPLAY_NAME_STORAGE_KEY := displayName]> storage |}.

Definition saveDisplayName (st : State) : State :=
  let cleanName := slice0 (trim (displayName st)) 64 in
  let displayName := or_else cleanName (username st) in
  {| messageText := messageText st;
     username := username st;
     displayName := displayName;
     errorMessage := errorMessage st;
     isSending := isSending st;
     localStorage := <[DISPLAY_NAME_STORAGE_KEY := displayName]> (localStorage st) |}.

Definition isAlphanumeric (c : N) : bool :=
  ((97 <=? c) && (c <=? 122)) || ((65 <=? c) && (c <=? 90)) || ((48 <=? c) && (c <=? 57)).

(** [toUpperCase] on a code unit that is a letter or digit of ASCII. *)
Definition upper (c : N) : N :=
  if (97 <=? c) && (c <=? 122) then c - 32 else c.

Definition getAvatarInitials (rawUsername : jsstring) : jsstring :=
  let compact := upper <$> List.filter isAlphanumeric rawUsername in
  or_else (slice0 compact 2) (lit "AN").

(** The loop of [avatarStyle]: [hash = (hash * 31 + charCode) % 360]. *)
Definition avatar_hash (rawUsername : jsstring) : N :=
  fold_left (fun hash c => (hash * 31 + c) mod 360) rawUsername 0.

(** [{ background: `hsl(${hash} 70% 46%)` }]. *)
Definition avatarStyle (rawUsername : jsstring) : jsstring :=
  lit "hsl(" ++ Number_toString (Z.of_N (avatar_hash rawUsername)) ++ lit " 70% 46%)".

(** How [fetch] and the reading of the reply can end in [sendMessage]: the
    call (or [response.json()]) rejects with an [Error], the reply is ok,
    or it is not ok and its payload has a [message] or has none. *)
Inductive FetchOutcome : Type :=
| Rejected (message : jsstring)
| ReplyOk
| ReplyNotOk (message : option jsstring).

(** The body [sendMessage] posts: [{ text, username, displayName }]. *)
Definition message_body (cleanText username displayName : jsstring) : JSValue :=
  JObject [Prop_ (lit "text") (JString cleanText);
           Prop_ (lit "username") (JString username);
           Prop_ (lit "displayName") (JString displayName)].

(** [sendMessage], with the server as a function from the posted body to
    the outcome of the exchange: the state it leaves, and the body it
    posted if it posted one. *)
Definition sendMessage (server : JSValue -> FetchOutcome) (st : State)
  : State * option JSValue :=
  let finish (text error : jsstring) (sending : bool) :=
    {| messageText := text;
       username := username st;
       displayName := displayName st;
       errorMessage := error;
       isSending := sending;
       localStorage := localStorage st |} in
  let cleanText := trim (messageText st) in
  if (length cleanText =? 0)%nat then
    (finish (messageText st) (lit "Message cannot be empty.") (isSending st), None)
  else if (MAX_TEXT_LENGTH <? length cleanText)%nat then
    (finish (messageText st)
       (lit "Message must be " ++ Number_toString (Z.of_nat MAX_TEXT_LENGTH)
          ++ lit " characters or less.")
       (isSending st), None)
  else
    let posted := message_body cleanText (username st) (displayName st) in
    match server posted with
    | ReplyOk => (finish [] [] false, Some posted)
    | ReplyNotOk payloadMessage =>
        (finish (messageText st) (default (lit "Message send failed") payloadMessage) false,
         Some posted)
    | Rejected message => (finish (messageText st) message false, Some posted)
    end.

(** One call of [loadMessages] succeeds or throws. *)
Inductive LoadOutcome : Type :=
| Loaded
| LoadFailed (error : jsstring).

Inductive Action : Type :=
| CallLoadMessages
| Sleep (ms : Z).

(** How [loadMessagesWithRetry] ends: it returns, or throws [lastError]
    ([None] for [undefined]). *)
Inductive RetryResult : Type :=
| Done
| Threw (lastError : option jsstring).

(** The [for] loop from index [i] with [n] iterations left; [load k] is
    the outcome of the call of [loadMessages] in iteration [k]. *)
Fixpoint retry_loop (load : nat -> LoadOutcome) (attempts delayMs : Z)
    (n i : nat) (lastError : option jsstring) : RetryResult * list Action :=
  match n with
  | O => (Threw lastError, [])
  | S n' =>
      match load i with
      | Loaded => (Done, [CallLoadMessages])
      | LoadFailed error =>
          let waits := if (Z.of_nat i <? attempts - 1)%Z then [Sleep delayMs] else [] in
          let '(result, actions) :=
            retry_loop load attempts delayMs n' (S i) (Some error) in
          (result, CallLoadMessages :: waits ++ actions)
      end
  end.

(** [loadMessagesWithRetry(attempts, delayMs)] for an integer count of
    attempts. *)
Definition loadMessagesWithRetry (load : nat -> LoadOutcome) (attempts delayMs : Z)
  : RetryResult * list Action :=
  retry_loop load attempts delayMs (Z.to_nat attempts) 0 None.

Definition calls (actions : list Action) : nat :=
  length (List.filter (fun a => match a with CallLoadMessages => true | _ => false end) actions).

Definition slept (actions : list Action) : Z :=
  fold_right (fun a total => match a with Sleep ms => (ms + total)%Z | _ => total end)
    0%Z actions.

End Frontend.

(** ** More values for worked examples *)

(** A code unit that [trim] keeps and that is no colon. *)
Definition plain (c : N) : bool := negb (isTrimmable c) && negb (c =? 58).

Definition example_older_row : MessageRow :=
  {| row_id := lit "id-0"; row_text := lit "first"; row_username := lit "Kind-Leaf-0007";
     row_displayName := None; row_createdAt := 4000 |}.

Definition example_world_with_history : World FixedWindow :=
  {| rateLimiter := createRateLimiter 10000 10; table := [example_older_row]; trace := [] |}.

Definition example_newer_row : MessageRow :=
  {| row_id := lit "id-1"; row_text := lit "second"; row_username := lit "Calm-Fox-0001";
     row_displayName := Some (lit "Al"); row_createdAt := 4500 |}.

Definition example_world_two_rows : World FixedWindow :=
  {| rateLimiter := createRateLimiter 10000 10;
     table := [example_older_row; example_newer_row]; trace := [] |}.

(** The numeral of [-10^400]: a minus sign, a one and four hundred zeros. *)
Definition example_overflowing_limit : jsstring := lit "-1" ++ repeat 48 400.

Definition example_history_request (limit : option jsstring) : Request :=
  {| cookies := ∅; query_limit := limit; request_body := JUndefined; ip := None |}.

Definition example_client : Frontend.State :=
  {| Frontend.messageText := lit "  hello  ";
     Frontend.username := lit "Calm-Fox-0001";
     Frontend.displayName := lit "   ";
     Frontend.errorMessage := [];
     Frontend.isSending := false;
     Frontend.localStorage := ∅ |}.

(* ===================================================================== *)
(** * Properties *)
(* ===================================================================== *)

(** ** Trimming *)

Lemma trimStart_length (s : jsstring) : (length (trimStart s) <= length s)%nat.
Proof.
  induction s as [|c s IH]; simpl; [lia|].
  destruct (isTrimmable c); simpl; lia.
Qed.

Lemma trimStart_fixed_head (c : N) (s : jsstring) :
  trimStart (c :: s) = c :: s -> isTrimmable c = false.
Proof.
  simpl. destruct (isTrimmable c); [|done].
  intros E. pose proof (trimStart_length s) as Hlen.
  rewrite E in Hlen. simpl in Hlen. lia.
Qed.

Lemma trimStart_idem (s : jsstring) : trimStart (trimStart s) = trimStart s.
Proof.
  induction s as [|c s IH]; simpl; [done|].
  destruct (isTrimmable c) eqn:E; [done|].
  simpl. by rewrite E.
Qed.

Lemma trimStart_snoc (s : jsstring) (c : N) :
  isTrimmable c = false -> trimStart (s ++ [c]) = trimStart s ++ [c].
Proof.
  intros Hc. induction s as [|d s IH]; simpl.
  - by rewrite Hc.
  - destruct (isTrimmable d); [done|]. reflexivity.
Qed.

Lemma trimEnd_idem (s : jsstring) : trimEnd (trimEnd s) = trimEnd s.
Proof. unfold trimEnd. by rewrite rev_involutive, trimStart_idem. Qed.

Lemma trimEnd_cons (c : N) (s : jsstring) :
  isTrimmable c = false -> trimEnd (c :: s) = c :: trimEnd s.
Proof.
  intros Hc. unfold trimEnd. simpl.
  rewrite trimStart_snoc by done.
  by rewrite rev_app_distr.
Qed.

Lemma trimStart_trimEnd (s : jsstring) :
  trimStart s = s -> trimStart (trimEnd s) = trimEnd s.
Proof.
  destruct s as [|c s]; [done|].
  intros E. apply trimStart_fixed_head in E.
  rewrite trimEnd_cons by done. simpl. by rewrite E.
Qed.

Lemma trim_idem (s : jsstring) : trim (trim s) = trim s.
Proof.
  unfold trim.
  rewrite (trimStart_trimEnd (trimStart s)) by apply trimStart_idem.
  apply trimEnd_idem.
Qed.

Lemma length_zero_nil {A} (l : list A) : (length l =? 0)%nat = true <-> l = [].
Proof. destruct l; simpl; split; intros; done. Qed.

Lemma typeof_string (v : JSValue) : typeof v = TString <-> exists s, v = JString s.
Proof.
  split.
  - destruct v; simpl; intros E; try discriminate. eauto.
  - intros [s ->]. reflexivity.
Qed.

(** ** The text validator *)

Lemma text_too_long_message :
  lit "text must be <= " ++ Number_toString (Z.of_nat MESSAGE_MAX_LENGTH) ++ lit " characters"
  = lit "text must be <= 1000 characters".
Proof. reflexivity. Qed.

Lemma displayName_too_long_message :
  lit "displayName must be <= " ++ Number_toString (Z.of_nat NAME_MAX_LENGTH)
    ++ lit " characters"
  = lit "displayName must be <= 64 characters".
Proof. reflexivity. Qed.

Lemma trimAndValidateText_string (s : jsstring) :
  trimAndValidateText (JString s) =
    if decide (trim s = []) then Invalid (lit "text cannot be empty")
    else if decide (1000 < length (trim s))%nat
         then Invalid (lit "text must be <= 1000 characters")
         else Valid (trim s).
Proof.
  unfold trimAndValidateText. cbv zeta. rewrite text_too_long_message.
  destruct (length (trim s) =? 0)%nat eqn:E0.
  - apply length_zero_nil in E0. by rewrite decide_True.
  - rewrite decide_False.
    2:{ intros E. apply length_zero_nil in E. congruence. }
    unfold MESSAGE_MAX_LENGTH.
    destruct (1000 <? length (trim s))%nat eqn:E1.
    + apply Nat.ltb_lt in E1. by rewrite decide_True.
    + apply Nat.ltb_ge in E1. rewrite decide_False by lia. done.
Qed.

Lemma trimAndValidateText_not_string (raw : JSValue) :
  typeof raw <> TString ->
  trimAndValidateText raw = Invalid (lit "text must be a string").
Proof. destruct raw; simpl; intros H; try done. Qed.

(** C2. [trimAndValidateText] rejects a value that is not a string, a string
    that trims to the empty string, and a string whose trimmed length
    exceeds 1000, each with its own message; otherwise it returns exactly
    the trimmed string.  So it accepts exactly the strings whose trimmed
    length lies in [1, 1000], and an accepted result is already trimmed and
    is returned unchanged when validated again. *)
Theorem trimAndValidateText_correct (raw : JSValue) :
  (typeof raw <> TString ->
     trimAndValidateText raw = Invalid (lit "text must be a string"))
  /\ (forall s, raw = JString s ->
        (trim s = [] ->
           trimAndValidateText raw = Invalid (lit "text cannot be empty"))
        /\ ((1000 < length (trim s))%nat ->
              trimAndValidateText raw = Invalid (lit "text must be <= 1000 characters"))
        /\ ((1 <= length (trim s) <= 1000)%nat ->
              trimAndValidateText raw = Valid (trim s)))
  /\ ((exists t, trimAndValidateText raw = Valid t) <->
      (exists s, raw = JString s /\ (1 <= length (trim s) <= 1000)%nat))
  /\ (forall t, trimAndValidateText raw = Valid t ->
        trim t = t /\ trimAndValidateText (JString t) = Valid t).
Proof.
  assert (Hstr : forall s t, trimAndValidateText (JString s) = Valid t ->
                   t = trim s /\ (1 <= length (trim s) <= 1000)%nat).
  { intros s t. rewrite trimAndValidateText_string.
    destruct (decide (trim s = [])) as [|Hne]; [done|].
    destruct (decide (1000 < length (trim s))%nat); [done|].
    intros [= <-]. split; [done|].
    destruct (trim s); [done|]. simpl in *. lia. }
  assert (Hok : forall s, (1 <= length (trim s) <= 1000)%nat ->
                  trimAndValidateText (JString s) = Valid (trim s)).
  { intros s Hlen. rewrite trimAndValidateText_string.
    rewrite decide_False by (intros E; rewrite E in Hlen; simpl in Hlen; lia).
    by rewrite decide_False by lia. }
  split; [apply trimAndValidateText_not_string|].
  split.
  { intros s ->. rewrite trimAndValidateText_string. repeat split.
    - intros E. by rewrite decide_True.
    - intros Hlen. rewrite decide_False.
      + by rewrite decide_True.
      + intros E. rewrite E in Hlen. simpl in Hlen. lia.
    - intros Hlen. rewrite <- trimAndValidateText_string. by apply Hok. }
  split.
  { split.
    - intros [t Ht]. destruct (decide (typeof raw = TString)) as [Hs|Hs].
      + apply typeof_string in Hs as [s ->]. exists s. split; [done|].
        by apply Hstr in Ht as [_ ?].
      + rewrite trimAndValidateText_not_string in Ht by done. discriminate.
    - intros (s & -> & Hlen). exists (trim s). by apply Hok. }
  intros t Ht.
  destruct (decide (typeof raw = TString)) as [Hs|Hs].
  - apply typeof_string in Hs as [s ->].
    apply Hstr in Ht as [-> Hlen].
    split; [apply trim_idem|].
    rewrite <- (trim_idem s) at 2. apply Hok. by rewrite trim_idem.
  - rewrite trimAndValidateText_not_string in Ht by done. discriminate.
Qed.

(** ** The display-name validator *)

Lemma trimAndValidateDisplayName_string (s fallback : jsstring) :
  trimAndValidateDisplayName (JString s) fallback =
    if decide (trim s = []) then Valid fallback
    else if decide (64 < length (trim s))%nat
         then Invalid (lit "displayName must be <= 64 characters")
         else Valid (trim s).
Proof.
  unfold trimAndValidateDisplayName. cbv zeta. rewrite displayName_too_long_message.
  destruct (length (trim s) =? 0)%nat eqn:E0.
  - apply length_zero_nil in E0. by rewrite decide_True.
  - rewrite decide_False.
    2:{ intros E. apply length_zero_nil in E. congruence. }
    unfold NAME_MAX_LENGTH.
    destruct (64 <? length (trim s))%nat eqn:E1.
    + apply Nat.ltb_lt in E1. by rewrite decide_True.
    + apply Nat.ltb_ge in E1. rewrite decide_False by lia. done.
Qed.

(** C8. [trimAndValidateDisplayName] returns the fallback, without error,
    when the raw value is absent ([undefined] or [null]) or is a string that
    trims to the empty string; it returns an error for any other value that
    is not a string and for a string whose trimmed length exceeds 64;
    otherwise it returns exactly the trimmed name.  A name that is already
    trimmed and has between 1 and 64 code units comes back unchanged. *)
Theorem trimAndValidateDisplayName_correct (raw : JSValue) (fallback : jsstring) :
  (raw = JUndefined \/ raw = JNull ->
     trimAndValidateDisplayName raw fallback = Valid fallback)
  /\ (forall s, raw = JString s ->
        (trim s = [] -> trimAndValidateDisplayName raw fallback = Valid fallback)
        /\ ((64 < length (trim s))%nat ->
              trimAndValidateDisplayName raw fallback
              = Invalid (lit "displayName must be <= 64 characters"))
        /\ ((1 <= length (trim s) <= 64)%nat ->
              trimAndValidateDisplayName raw fallback = Valid (trim s)))
  /\ (typeof raw <> TString -> raw <> JUndefined -> raw <> JNull ->
        trimAndValidateDisplayName raw fallback
        = Invalid (lit "displayName must be a string"))
  /\ ((exists m, trimAndValidateDisplayName raw fallback = Invalid m) <->
      (typeof raw <> TString /\ raw <> JUndefined /\ raw <> JNull)
      \/ (exists s, raw = JString s /\ (64 < length (trim s))%nat))
  /\ (forall s, raw = JString s -> trim s = s -> (1 <= length s <= 64)%nat ->
        trimAndValidateDisplayName raw fallback = Valid s).
Proof.
  split; [by intros [-> | ->]|].
  assert (Hs : forall s, raw = JString s ->
    (trim s = [] -> trimAndValidateDisplayName raw fallback = Valid fallback)
    /\ ((64 < length (trim s))%nat ->
          trimAndValidateDisplayName raw fallback
          = Invalid (lit "displayName must be <= 64 characters"))
    /\ ((1 <= length (trim s) <= 64)%nat ->
          trimAndValidateDisplayName raw fallback = Valid (trim s))).
  { intros s ->. rewrite trimAndValidateDisplayName_string. repeat split.
    - intros E. by rewrite decide_True.
    - intros Hlen. rewrite decide_False.
      + by rewrite decide_True.
      + intros E. rewrite E in Hlen. simpl in Hlen. lia.
    - intros Hlen.
      rewrite decide_False by (intros E; rewrite E in Hlen; simpl in Hlen; lia).
      by rewrite decide_False by lia. }
  split; [exact Hs|].
  split; [destruct raw; simpl; intros; done|].
  split.
  { split.
    - intros [m Hm]. destruct raw; try (by cbn in Hm);
        try (left; repeat split; done).
      right. eexists. split; [done|].
      rewrite trimAndValidateDisplayName_string in Hm.
      destruct (decide (trim s = [])); [done|].
      destruct (decide (64 < length (trim s))%nat); done.
    - intros [(Ht & Hu & Hn) | (s & -> & Hlen)].
      + destruct raw; simpl in *; try done; eauto.
      + eexists. by apply (Hs s). }
  intros s E Htrim Hlen. destruct (Hs s E) as (_ & _ & Hv).
  rewrite Htrim in Hv. by apply Hv.
Qed.

(** ** The fixed-window rate limiter *)

Section FixedWindowFacts.
Implicit Types (rl : FixedWindow) (key : jsstring) (t : Z).

Lemma check_unfold t key rl :
  check t key rl = FixedWindow_check t key rl.
Proof. reflexivity. Qed.

Lemma FixedWindow_check_config t key rl :
  windowMs (FixedWindow_check t key rl).2 = windowMs rl
  /\ maxRequests (FixedWindow_check t key rl).2 = maxRequests rl.
Proof. done. Qed.

Lemma FixedWindow_check_other t key key' rl :
  key' <> key ->
  windows (FixedWindow_check t key' rl).2 !! key = windows rl !! key.
Proof. intros Hne. simpl. by rewrite lookup_insert_ne. Qed.

(** A check inside the running window of its key counts one more call and
    is admitted while the count stays within the cap. *)
Lemma FixedWindow_check_inside t key rl (w : RateWindow) :
  windows rl !! key = Some w ->
  (t - windowStart w < windowMs rl)%Z ->
  (FixedWindow_check t key rl).1 = bool_decide (Z.of_nat (S (count w)) <= maxRequests rl)%Z
  /\ windows (FixedWindow_check t key rl).2 !! key
     = Some {| count := S (count w); windowStart := windowStart w |}.
Proof.
  intros Hw Ht. unfold FixedWindow_check, current_window. rewrite Hw.
  apply Z.ltb_lt in Ht. rewrite Ht. simpl. split.
  - apply eq_true_iff_eq. rewrite bool_decide_eq_true, Z.leb_le. done.
  - by rewrite lookup_insert_eq.
Qed.

(** A check that finds no window for its key, or one that has elapsed,
    starts a new window at its own time, holding this one call. *)
Lemma FixedWindow_check_fresh t key rl :
  (windows rl !! key = None
   \/ exists w, windows rl !! key = Some w /\ (windowMs rl <= t - windowStart w)%Z) ->
  (FixedWindow_check t key rl).1 = bool_decide (1 <= maxRequests rl)%Z
  /\ (FixedWindow_check t key rl).2
     = {| windowMs := windowMs rl; maxRequests := maxRequests rl;
          windows := <[key := {| count := 1; windowStart := t |}]> (windows rl) |}.
Proof.
  intros H. unfold FixedWindow_check, current_window.
  assert (E : match windows rl !! key with
              | Some w => if (t - windowStart w <? windowMs rl)%Z then w
                          else {| count := 0; windowStart := t |}
              | None => {| count := 0; windowStart := t |}
              end = {| count := 0; windowStart := t |}).
  { destruct H as [-> | (w & -> & Hw)]; [done|].
    apply Z.ltb_ge in Hw. by rewrite Hw. }
  rewrite E. simpl. split; [|done].
  apply eq_true_iff_eq. rewrite bool_decide_eq_true, Z.leb_le. done.
Qed.

Lemma run_checks_cons t key (calls : list (Z * jsstring)) rl :
  run_checks ((t, key) :: calls) rl
  = ((FixedWindow_check t key rl).1
       :: (run_checks calls (FixedWindow_check t key rl).2).1,
     (run_checks calls (FixedWindow_check t key rl).2).2).
Proof.
  cbn [run_checks]. rewrite check_unfold.
  destruct (FixedWindow_check t key rl) as [ok rl']. cbn [fst snd].
  by destruct (run_checks calls rl') as [oks rl''].
Qed.

Lemma calls_of_cons key t k (calls : list (Z * jsstring)) :
  calls_of key ((t, k) :: calls)
  = if decide (k = key) then (t, k) :: calls_of key calls else calls_of key calls.
Proof. unfold calls_of. rewrite filter_cons. simpl. by destruct (decide (k = key)). Qed.

(** Calls of one key inside its running window: the outcomes of that key
    count up from the window's count, whatever other keys do in between. *)
Lemma run_checks_inside key (calls : list (Z * jsstring)) : forall rl (w : RateWindow),
  windows rl !! key = Some w ->
  (forall t, (t, key) ∈ calls -> (t - windowStart w < windowMs rl)%Z) ->
  outcomes_of key calls (run_checks calls rl).1
  = (fun i => bool_decide (Z.of_nat (count w + 1 + i) <= maxRequests rl)%Z)
      <$> seq 0 (length (calls_of key calls)).
Proof.
  induction calls as [|[t k] calls IH]; intros rl w Hw Hin; [done|].
  rewrite run_checks_cons, calls_of_cons. cbn [fst outcomes_of].
  pose proof (FixedWindow_check_config t k rl) as [Hc1 Hc2].
  destruct (decide (k = key)) as [->|Hne].
  - destruct (FixedWindow_check_inside t key rl w Hw) as [Hok Hw'].
    { apply Hin. apply list_elem_of_here. }
    cbn [length seq fmap list_fmap]. f_equal.
    + rewrite Hok. apply bool_decide_ext. lia.
    + rewrite (IH _ _ Hw').
      2:{ intros t' Ht'. rewrite Hc1. cbn [windowStart]. apply Hin.
          by apply list_elem_of_further. }
      rewrite <- fmap_S_seq, <- list_fmap_compose. apply list_fmap_ext.
      intros i x _. cbn. apply bool_decide_ext. lia.
  - pose proof (FixedWindow_check_other t key k rl Hne) as Ho.
    rewrite (IH _ w).
    + by rewrite Hc2.
    + by rewrite Ho.
    + intros t' Ht'. rewrite Hc1. apply Hin. by apply list_elem_of_further.
Qed.

(** Two limiters with the same configuration and the same window for
    [key] answer the calls of [key] alike, whatever else the first one is
    asked in between. *)
Lemma run_checks_agree key (calls : list (Z * jsstring)) : forall rl1 rl2,
  windowMs rl1 = windowMs rl2 ->
  maxRequests rl1 = maxRequests rl2 ->
  windows rl1 !! key = windows rl2 !! key ->
  outcomes_of key calls (run_checks calls rl1).1
  = (run_checks (calls_of key calls) rl2).1.
Proof.
  induction calls as [|[t k] calls IH]; intros rl1 rl2 HW HN Hk; [done|].
  rewrite run_checks_cons, calls_of_cons. cbn [fst outcomes_of].
  destruct (decide (k = key)) as [->|Hne].
  - rewrite run_checks_cons. cbn [fst]. f_equal.
    + unfold FixedWindow_check, current_window. cbn [fst]. by rewrite Hk, HW, HN.
    + apply IH; [done|done|].
      unfold FixedWindow_check. cbn [snd windows].
      rewrite !lookup_insert_eq. unfold current_window. by rewrite Hk, HW.
  - apply IH; [done|done|].
    by rewrite FixedWindow_check_other.
Qed.

Lemma run_checks_config (calls : list (Z * jsstring)) : forall rl,
  windowMs (run_checks calls rl).2 = windowMs rl
  /\ maxRequests (run_checks calls rl).2 = maxRequests rl.
Proof.
  induction calls as [|[t k] calls IH]; intros rl; [done|].
  rewrite run_checks_cons. cbn [snd].
  destruct (IH (FixedWindow_check t k rl).2) as [-> ->]. done.
Qed.

Lemma run_checks_length (calls : list (Z * jsstring)) : forall rl,
  length (run_checks calls rl).1 = length calls.
Proof.
  induction calls as [|[t k] calls IH]; intros rl; [done|].
  rewrite run_checks_cons. cbn [fst length]. by rewrite IH.
Qed.

Lemma run_checks_app (calls1 calls2 : list (Z * jsstring)) : forall rl,
  run_checks (calls1 ++ calls2) rl
  = ((run_checks calls1 rl).1 ++ (run_checks calls2 (run_checks calls1 rl).2).1,
     (run_checks calls2 (run_checks calls1 rl).2).2).
Proof.
  induction calls1 as [|[t k] calls1 IH]; intros rl.
  - cbn. by destruct (run_checks calls2 rl).
  - rewrite <- app_comm_cons, !run_checks_cons, IH. done.
Qed.

Lemma outcomes_of_app key (calls1 calls2 : list (Z * jsstring)) : forall oks1 oks2,
  length oks1 = length calls1 ->
  outcomes_of key (calls1 ++ calls2) (oks1 ++ oks2)
  = outcomes_of key calls1 oks1 ++ outcomes_of key calls2 oks2.
Proof.
  induction calls1 as [|[t k] calls1 IH]; intros [|ok oks1] oks2 Hlen;
    try discriminate; [done|].
  cbn [app outcomes_of]. injection Hlen as Hlen.
  destruct (decide (k = key)); rewrite IH; done.
Qed.

(** Calls of one key inside its running window leave the start of the
    window where it was and add their number to its count. *)
Lemma run_checks_window key (calls : list (Z * jsstring)) : forall rl (w : RateWindow),
  windows rl !! key = Some w ->
  (forall t, (t, key) ∈ calls -> (t - windowStart w < windowMs rl)%Z) ->
  windows (run_checks calls rl).2 !! key
  = Some {| count := count w + length (calls_of key calls);
            windowStart := windowStart w |}.
Proof.
  induction calls as [|[t k] calls IH]; intros rl w Hw Hin.
  - cbn. rewrite Hw. destruct w. cbn. do 2 f_equal. lia.
  - rewrite run_checks_cons, calls_of_cons. cbn [snd].
    pose proof (FixedWindow_check_config t k rl) as [Hc1 Hc2].
    destruct (decide (k = key)) as [->|Hne].
    + destruct (FixedWindow_check_inside t key rl w Hw) as [_ Hw'].
      { apply Hin. apply list_elem_of_here. }
      rewrite (IH _ _ Hw').
      * cbn [count windowStart length]. do 2 f_equal. lia.
      * intros t' Ht'. rewrite Hc1. cbn [windowStart]. apply Hin.
        by apply list_elem_of_further.
    + apply IH.
      * by rewrite FixedWindow_check_other.
      * intros t' Ht'. rewrite Hc1. apply Hin. by apply list_elem_of_further.
Qed.

(** One whole window: the call at [t0] that opens it and the calls that
    follow while it runs. *)
Lemma run_checks_one_window key t0 (rest : list (Z * jsstring)) rl :
  (windows rl !! key = None
   \/ exists w, windows rl !! key = Some w /\ (windowMs rl <= t0 - windowStart w)%Z) ->
  (forall t, (t, key) ∈ rest -> (t - t0 < windowMs rl)%Z) ->
  outcomes_of key ((t0, key) :: rest) (run_checks ((t0, key) :: rest) rl).1
  = (fun i => bool_decide (Z.of_nat i < maxRequests rl)%Z)
      <$> seq 0 (S (length (calls_of key rest)))
  /\ windows (run_checks ((t0, key) :: rest) rl).2 !! key
     = Some {| count := S (length (calls_of key rest)); windowStart := t0 |}.
Proof.
  intros Hfresh Hin.
  rewrite run_checks_cons. cbn [fst snd outcomes_of]. rewrite decide_True by done.
  destruct (FixedWindow_check_fresh t0 key rl Hfresh) as [Hok Hrl].
  assert (Hw : windows (FixedWindow_check t0 key rl).2 !! key
               = Some {| count := 1; windowStart := t0 |}).
  { rewrite Hrl. cbn. by rewrite lookup_insert_eq. }
  assert (Hin' : forall t, (t, key) ∈ rest ->
            (t - windowStart {| count := 1; windowStart := t0 |}
             < windowMs (FixedWindow_check t0 key rl).2)%Z).
  { intros t Ht. rewrite Hrl. cbn. by apply Hin. }
  split.
  - cbn [seq fmap list_fmap]. f_equal.
    + rewrite Hok. apply bool_decide_ext. lia.
    + rewrite (run_checks_inside key rest _ _ Hw Hin').
      rewrite <- fmap_S_seq, <- list_fmap_compose. apply list_fmap_ext.
      intros i x _. cbn. apply bool_decide_ext. lia.
  - rewrite (run_checks_window key rest _ _ Hw Hin'). done.
Qed.

End FixedWindowFacts.

(** C1. With cap [N = maxRequests rl] and window [W = windowMs rl], for every
    key: when a call at [t0] opens a window (no window yet, or the old one
    elapsed), then among that call and the later calls of the key whose
    times lie less than [W] after [t0], exactly the first [N] are admitted
    and every later one, the [(N+1)]th first, is denied, whatever calls of
    other keys come in between; a call at or after [W] from the window's
    start resets the counter and, for a cap of at least one, is admitted as
    the first call of a new window; the outcomes for a key are the same
    as if the calls of all other keys had never been made.  The window is
    fixed: the calls made while it runs leave its start at [t0], the time
    of the call that opened it, and only add to its count; so the first
    call of the key at or after [t0 + W], however recent the last call
    before it, opens the next window, in which again exactly the first
    [N] calls are admitted. *)
Theorem rate_limiter_fixed_window (rl : FixedWindow) (key : jsstring) :
  (forall t0 (rest : list (Z * jsstring)),
     (windows rl !! key = None
      \/ exists w, windows rl !! key = Some w /\ (windowMs rl <= t0 - windowStart w)%Z) ->
     (forall t, (t, key) ∈ rest -> (t - t0 < windowMs rl)%Z) ->
     outcomes_of key ((t0, key) :: rest) (run_checks ((t0, key) :: rest) rl).1
     = (fun i => bool_decide (Z.of_nat i < maxRequests rl)%Z)
         <$> seq 0 (S (length (calls_of key rest))))
  /\ (forall w t,
        windows rl !! key = Some w ->
        (windowMs rl <= t - windowStart w)%Z ->
        (1 <= maxRequests rl)%Z ->
        (check t key rl).1 = true
        /\ windows (check t key rl).2 !! key = Some {| count := 1; windowStart := t |})
  /\ (forall calls : list (Z * jsstring),
        outcomes_of key calls (run_checks calls rl).1
        = (run_checks (calls_of key calls) rl).1)
  /\ (forall key' t, key' <> key ->
        windows (check t key' rl).2 !! key = windows rl !! key
        /\ forall t', (check t' key (check t key' rl).2).1 = (check t' key rl).1)
  /\ (forall w t,
        windows rl !! key = Some w ->
        (t - windowStart w < windowMs rl)%Z ->
        (check t key rl).1 = bool_decide (Z.of_nat (count w) < maxRequests rl)%Z
        /\ windows (check t key rl).2 !! key
           = Some {| count := S (count w); windowStart := windowStart w |})
  /\ (forall t0 (rest : list (Z * jsstring)),
        (windows rl !! key = None
         \/ exists w, windows rl !! key = Some w
                      /\ (windowMs rl <= t0 - windowStart w)%Z) ->
        (forall t, (t, key) ∈ rest -> (t - t0 < windowMs rl)%Z) ->
        windows (run_checks ((t0, key) :: rest) rl).2 !! key
        = Some {| count := S (length (calls_of key rest)); windowStart := t0 |})
  /\ (forall t0 (rest : list (Z * jsstring)) t1 (rest' : list (Z * jsstring)),
        (windows rl !! key = None
         \/ exists w, windows rl !! key = Some w
                      /\ (windowMs rl <= t0 - windowStart w)%Z) ->
        (forall t, (t, key) ∈ rest -> (t - t0 < windowMs rl)%Z) ->
        (windowMs rl <= t1 - t0)%Z ->
        (forall t, (t, key) ∈ rest' -> (t - t1 < windowMs rl)%Z) ->
        outcomes_of key (((t0, key) :: rest) ++ (t1, key) :: rest')
          (run_checks (((t0, key) :: rest) ++ (t1, key) :: rest') rl).1
        = ((fun i => bool_decide (Z.of_nat i < maxRequests rl)%Z)
             <$> seq 0 (S (length (calls_of key rest))))
          ++ ((fun i => bool_decide (Z.of_nat i < maxRequests rl)%Z)
                <$> seq 0 (S (length (calls_of key rest'))))).
Proof.
  split; [|split; [|split; [|split; [|split; [|split]]]]].
  - intros t0 rest Hfresh Hin.
    apply (run_checks_one_window key t0 rest rl Hfresh Hin).
  - intros w t Hw Ht HN. rewrite check_unfold.
    destruct (FixedWindow_check_fresh t key rl) as [Hok Hrl]; [by eauto|].
    split.
    + rewrite Hok. by apply bool_decide_eq_true.
    + rewrite Hrl. cbn. by rewrite lookup_insert_eq.
  - intros calls. by apply run_checks_agree.
  - intros key' t Hne. split.
    + rewrite check_unfold. by apply FixedWindow_check_other.
    + intros t'.
      unfold check, FixedWindow_RateLimiter, FixedWindow_check, current_window.
      cbn [fst snd windows windowMs maxRequests].
      by rewrite lookup_insert_ne.
  - intros w t Hw Ht. rewrite check_unfold.
    destruct (FixedWindow_check_inside t key rl w Hw Ht) as [Hok Hw'].
    split; [|done]. rewrite Hok. apply bool_decide_ext. lia.
  - intros t0 rest Hfresh Hin.
    apply (run_checks_one_window key t0 rest rl Hfresh Hin).
  - intros t0 rest t1 rest' Hfresh Hin Ht1 Hin'.
    destruct (run_checks_one_window key t0 rest rl Hfresh Hin) as [Hout Hw].
    rewrite run_checks_app. cbn [fst].
    rewrite outcomes_of_app by apply run_checks_length.
    rewrite Hout. f_equal.
    destruct (run_checks_config ((t0, key) :: rest) rl) as [HW HN].
    set (rl1 := (run_checks ((t0, key) :: rest) rl).2) in *.
    destruct (run_checks_one_window key t1 rest' rl1) as [Hout' _].
    + right. eexists. split; [exact Hw|]. rewrite HW. cbn. done.
    + intros t Ht. rewrite HW. by apply Hin'.
    + rewrite Hout', HN. done.
Qed.

(** A cap of two per hundred milliseconds, calls of one key at 0, 60, 120,
    180 and 190: the call at 120 falls outside the window the call at 0
    opened, although the call before it is only 60 old, and opens the next
    window; so the first four calls are admitted and the fifth, the third
    of the second window, is denied. *)
Lemma rate_limiter_fixed_window_witness :
  let calls := ((0%Z, lit "a") :: [(60%Z, lit "a")])
               ++ (120%Z, lit "a") :: [(180%Z, lit "a"); (190%Z, lit "a")] in
  outcomes_of (lit "a") calls (run_checks calls (createRateLimiter 100 2)).1
  = [true; true; true; true; false].
Proof.
  intros calls.
  refine (proj2 (proj2 (proj2 (proj2 (proj2 (proj2
            (rate_limiter_fixed_window (createRateLimiter 100 2) (lit "a")))))))
            0%Z [(60%Z, lit "a")] 120%Z [(180%Z, lit "a"); (190%Z, lit "a")]
            _ _ _ _).
  - left. reflexivity.
  - intros t Ht. apply list_elem_of_singleton in Ht. injection Ht as ->. cbn. lia.
  - cbn. lia.
  - intros t Ht. apply elem_of_cons in Ht as [Ht|Ht].
    + injection Ht as ->. cbn. lia.
    + apply list_elem_of_singleton in Ht. injection Ht as ->. cbn. lia.
Defined.

(** ** Identity resolution *)

Section Rounding.
Local Open Scope Z_scope.

(** The shape of a rounded significand: the integer itself when it has at
    most 53 bits; otherwise its top 53 bits [q], kept or, when the dropped
    bits [r] reach half a unit, raised by one. *)
Lemma round_significand_cases (a : Z) :
  0 <= a ->
  round_significand a = a
  \/ exists shift q r : Z,
       0 < shift /\ a = q * 2 ^ shift + r /\ 0 <= r < 2 ^ shift
       /\ 2 ^ 52 <= q
       /\ (round_significand a = q * 2 ^ shift
           \/ (round_significand a = (q + 1) * 2 ^ shift
               /\ 2 ^ (shift - 1) <= r)).
Proof.
  intros Ha. unfold round_significand. cbv zeta.
  destruct (Z.leb_spec (Z.log2 a + 1) 53) as [Hbits|Hbits]; [by left|right].
  set (shift := Z.log2 a + 1 - 53).
  assert (Hshift : 0 < shift) by (unfold shift; lia).
  assert (Hpos : 0 < a).
  { destruct (Z.eq_dec a 0) as [->|]; [cbn in Hbits; lia|lia]. }
  exists shift, (Z.shiftr a shift), (Z.land a (Z.ones shift)).
  rewrite Z.land_ones, !Z.shiftr_div_pow2, !Z.shiftl_mul_pow2, Z.mul_1_l by lia.
  pose proof (Z.pow_pos_nonneg 2 shift ltac:(lia) ltac:(lia)) as Hpow.
  pose proof (Z.mod_pos_bound a (2 ^ shift) Hpow) as Hmod.
  pose proof (Z.div_mod a (2 ^ shift) ltac:(lia)) as Hdiv.
  split; [done|]. split; [lia|]. split; [done|]. split.
  - destruct (Z.log2_spec a Hpos) as [Hlow _].
    apply Z.div_le_lower_bound; [done|].
    rewrite <- Z.pow_add_r by lia.
    replace (shift + 52) with (Z.log2 a) by (unfold shift; lia). done.
  - destruct (_ || _) eqn:Hup; [right|by left].
    split; [done|].
    apply orb_prop in Hup as [Hup|Hup].
    + apply Z.ltb_lt in Hup. lia.
    + apply andb_prop in Hup as [Hup _]. apply Z.eqb_eq in Hup. lia.
Qed.

(** The rounded product stays below [k]: the draw is at most [1 - 2^-53],
    so the exact product is at least [k * 2^-53] short of [k], which is
    more than half a unit in the last place of the doubles below [k]. *)
Lemma round_product_lt (m k e : Z) :
  0 <= m <= 2 ^ 53 - 1 -> 0 < k -> 0 <= e ->
  0 <= round_significand (m * k) / 2 ^ (53 + e) < k.
Proof.
  intros Hm Hk He.
  assert (Hscale : 2 ^ 53 <= 2 ^ (53 + e)) by (apply Z.pow_le_mono_r; lia).
  assert (Hp : 0 <= m * k <= k * 2 ^ 53 - k) by nia.
  assert (Hround : 0 <= round_significand (m * k) < k * 2 ^ 53).
  { destruct (round_significand_cases (m * k) (proj1 Hp))
      as [->|(shift & q & d & Hshift & Hsplit & Hd & Hq & Hcase)]; [lia|].
    assert (Hpow : 2 ^ shift = 2 * 2 ^ (shift - 1)).
    { rewrite <- Z.pow_succ_r by lia. f_equal. lia. }
    set (X := 2 ^ shift) in *. set (H := 2 ^ (shift - 1)) in *.
    clearbody X H.
    assert (HH : H < k) by nia.
    destruct Hcase as [->|[-> Hhalf]]; nia. }
  split; [apply Z.div_pos; lia|].
  apply Z.div_lt_upper_bound; [lia|]. nia.
Qed.

End Rounding.

Section BackendFacts.
Context {L : Type} {RL : RateLimiter L} {P : Platform}.
Implicit Types (env : Env) (request : Request) (w : World L).

Lemma floor_times_lt (r : draw) (n : N) : 0 < n -> floor_times r n < n.
Proof.
  intros Hn. unfold floor_times.
  pose proof (numerator_lt r) as Hr. apply N.ltb_lt in Hr.
  pose proof (round_product_lt (Z.of_N (numerator r)) (Z.of_N n)
                (Z.of_N (exponent r))) as Hquot.
  lia.
Qed.

(** The draw [0.7] with ten names picks the eighth: the exact product is
    just below 7 and rounds to 7.  With [10000] the draw nearest [0.5001]
    gives 5001. *)
Example floor_times_rounds :
  floor_times (example_draw 6305039478318694 eq_refl) 10 = 7
  /\ 6305039478318694 * 10 / 2 ^ 53 = 6
  /\ floor_times (example_draw 4504500347295970 eq_refl) 10000 = 5001
  /\ 4504500347295970 * 10000 / 2 ^ 53 = 5000.
Proof. vm_compute. done. Qed.

Lemma suffix_four_digits (n : N) :
  n < 10000 ->
  four_digits (padStart (Number_toString (Z.of_N n)) 4 (lit "0")) = true.
Proof.
  intros Hn.
  assert (Hall : forallb (fun k => four_digits
                    (padStart (Number_toString (Z.of_N (N.of_nat k))) 4 (lit "0")))
                   (seq 0 (N.to_nat 10000)) = true) by (vm_compute; reflexivity).
  rewrite forallb_forall in Hall.
  specialize (Hall (N.to_nat n)). rewrite N2Nat.id in Hall.
  apply Hall. apply in_seq. lia.
Qed.

Lemma pool_nth (pool : list jsstring) (r : draw) :
  (0 < length pool)%nat ->
  nth (N.to_nat (floor_times r (N.of_nat (length pool)))) pool (lit "undefined") ∈ pool.
Proof.
  intros Hlen. apply list_elem_of_In, nth_In.
  pose proof (floor_times_lt r (N.of_nat (length pool))). lia.
Qed.

Lemma generateUsername_pattern env : username_pattern (generateUsername env).
Proof.
  unfold generateUsername. cbv zeta.
  pose proof (suffix_four_digits (floor_times (random3 env) 10000)
                (floor_times_lt (random3 env) 10000 eq_refl)) as Hs.
  destruct (padStart _ 4 (lit "0")) as [|d1 [|d2 [|d3 [|d4 [|]]]]]; try discriminate.
  cbn [four_digits] in Hs.
  apply andb_prop in Hs as [Hs Hd4]. apply andb_prop in Hs as [Hs Hd3].
  apply andb_prop in Hs as [Hd1 Hd2].
  eexists _, _, d1, d2, d3, d4. repeat split; try done.
  - apply pool_nth. cbn. lia.
  - apply pool_nth. cbn. lia.
Qed.

Lemma generateUsername_nonempty env : generateUsername env <> [].
Proof.
  destruct (generateUsername_pattern env) as (a & n & d1 & d2 & d3 & d4 & _ & _ & _ & _ & _ & _ & E).
  rewrite E. intros Hnil. apply (f_equal length) in Hnil.
  rewrite !length_app in Hnil. cbn in Hnil. lia.
Qed.

(** The two ways [ensureIdentity] can go: the cookie carries an identity,
    which is returned and nothing is done; or a name is generated and set
    as the new cookie. *)
Lemma ensureIdentity_run env request w :
  (exists u, carries_identity request u /\ ensureIdentity env request w = (Returned u, w))
  \/ ((forall u, ~ carries_identity request u)
      /\ ensureIdentity env request w
         = (Returned (generateUsername env),
            after w [SetCookie IDENTITY_COOKIE_NAME (generateUsername env)
                       identity_cookie_options])).
Proof.
  unfold ensureIdentity, carries_identity. cbv zeta.
  destruct (cookies request !! IDENTITY_COOKIE_NAME) as [c|] eqn:Ec.
  2:{ right. split; [|done]. intros u (c & Hc & _). discriminate. }
  destruct c as [|c0 c].
  { right. split; [|done]. intros u (c & Hc & Hne & _). congruence. }
  cbn [length Nat.ltb Nat.leb].
  destruct (value (unsignCookie (c0 :: c))) as [v|] eqn:Ev.
  2:{ right. split; [|done]. intros u (c' & Hc & _ & _ & Hv & _). congruence. }
  destruct (valid (unsignCookie (c0 :: c))) eqn:Eval.
  2:{ right. split; [|done]. intros u (c' & Hc & _ & Hval & _). congruence. }
  destruct v as [|v0 v].
  { right. split; [|done]. intros u (c' & Hc & _ & _ & Hv & Hne).
    assert (c' = c0 :: c) as -> by congruence. congruence. }
  left. exists (v0 :: v). split; [|done].
  exists (c0 :: c). repeat split; done.
Qed.

Lemma carries_identity_unique request u1 u2 :
  carries_identity request u1 -> carries_identity request u2 -> u1 = u2.
Proof. intros (c1 & H1 & _ & _ & Hv1 & _) (c2 & H2 & _ & _ & Hv2 & _). congruence. Qed.

End BackendFacts.

(** ** The message ingress handler, path by path *)

Section IngressFacts.
Context {L : Type} {RL : RateLimiter L} {P : Platform}.
Implicit Types (env : Env) (request : Request) (w : World L).

Local Abbreviation text_of request :=
  (optional_member (request_body request) (lit "text")).
Local Abbreviation displayName_of request :=
  (optional_member (request_body request) (lit "displayName")).
Local Abbreviation key_of request u :=
  (getClientKey (default (lit "unknown") (ip request)) u).
Local Abbreviation validation_error m := (ErrorBody (lit "validation_error") m).
Local Abbreviation rate_limit_exceeded :=
  (ErrorBody (lit "rate_limit_exceeded") (lit "Too many messages, slow down.")).
Local Abbreviation server_error :=
  (ErrorBody (lit "server_error") (lit "Could not persist message")).

Lemma ensureIdentity_returns env request w :
  exists u ides,
    ensureIdentity env request w = (Returned u, after w ides)
    /\ (ides = []
        \/ ides = [SetCookie IDENTITY_COOKIE_NAME u identity_cookie_options]).
Proof.
  destruct (ensureIdentity_run env request w) as [(u & _ & E) | (_ & E)].
  - exists u, []. split; [|by left]. rewrite E. unfold after.
    rewrite app_nil_r. by destruct w.
  - eexists _, _. split; [exact E|by right].
Qed.

Lemma post_text_invalid env request w u w0 m :
  ensureIdentity env request w = (Returned u, w0) ->
  trimAndValidateText (text_of request) = Invalid m ->
  post_messages env request w
  = (Returned {| status := 400; body := validation_error m |},
     after w0 [Send 400 (validation_error m)]).
Proof. intros Hid Ht. unfold post_messages, bind. by rewrite Hid, Ht. Qed.

Lemma post_displayName_invalid env request w u w0 text m :
  ensureIdentity env request w = (Returned u, w0) ->
  trimAndValidateText (text_of request) = Valid text ->
  trimAndValidateDisplayName (displayName_of request) u = Invalid m ->
  post_messages env request w
  = (Returned {| status := 400; body := validation_error m |},
     after w0 [Send 400 (validation_error m)]).
Proof. intros Hid Ht Hn. unfold post_messages, bind. by rewrite Hid, Ht, Hn. Qed.

Lemma post_denied env request w u w0 text name rl :
  ensureIdentity env request w = (Returned u, w0) ->
  trimAndValidateText (text_of request) = Valid text ->
  trimAndValidateDisplayName (displayName_of request) u = Valid name ->
  check (now env) (key_of request u) (rateLimiter w0) = (false, rl) ->
  post_messages env request w
  = (Returned {| status := 429; body := rate_limit_exceeded |},
     {| rateLimiter := rl; table := table w0;
        trace := trace w0 ++ [RateCheck (key_of request u) false;
                              Send 429 rate_limit_exceeded] |}).
Proof.
  intros Hid Ht Hn Hc. unfold post_messages, bind. rewrite Hid, Ht, Hn.
  unfold rateLimiter_check. rewrite Hc. cbn.
  by rewrite <- app_assoc.
Qed.

Lemma post_append_failed env request w u w0 text name rl e :
  ensureIdentity env request w = (Returned u, w0) ->
  trimAndValidateText (text_of request) = Valid text ->
  trimAndValidateDisplayName (displayName_of request) u = Valid name ->
  check (now env) (key_of request u) (rateLimiter w0) = (true, rl) ->
  db_error env = Some e ->
  post_messages env request w
  = (Returned {| status := 500; body := server_error |},
     {| rateLimiter := rl; table := table w0;
        trace := trace w0 ++ [RateCheck (key_of request u) true;
                              DbCreate (uuid env) text u name false;
                              LogError e (lit "Could not create message");
                              Send 500 server_error] |}).
Proof.
  intros Hid Ht Hn Hc He. unfold post_messages, bind. rewrite Hid, Ht, Hn.
  unfold rateLimiter_check. rewrite Hc. cbn.
  unfold try_catch, bind, prisma_message_create. rewrite He. cbn.
  by rewrite <- !app_assoc.
Qed.

Lemma post_published env request w u w0 text name rl :
  ensureIdentity env request w = (Returned u, w0) ->
  trimAndValidateText (text_of request) = Valid text ->
  trimAndValidateDisplayName (displayName_of request) u = Valid name ->
  check (now env) (key_of request u) (rateLimiter w0) = (true, rl) ->
  db_error env = None ->
  let row := {| row_id := uuid env; row_text := text; row_username := u;
                row_displayName := Some name; row_createdAt := db_now env |} in
  post_messages env request w
  = (Returned {| status := 201; body := MessageBody (normalizeMessage row) |},
     {| rateLimiter := rl; table := table w0 ++ [row];
        trace := trace w0 ++ [RateCheck (key_of request u) true;
                              DbCreate (uuid env) text u name true;
                              Emit (lit "messages:new") (normalizeMessage row);
                              Send 201 (MessageBody (normalizeMessage row))] |}).
Proof.
  intros Hid Ht Hn Hc He row. unfold post_messages, bind. rewrite Hid, Ht, Hn.
  unfold rateLimiter_check. rewrite Hc. cbn.
  unfold try_catch, bind, prisma_message_create. rewrite He. cbn.
  by rewrite <- !app_assoc.
Qed.

(** Two verdicts of one validator on one input are the same verdict. *)
Ltac validation_clash :=
  repeat match goal with
         | H : _ \/ _ |- _ => destruct H
         | H : _ /\ _ |- _ => destruct H
         | H : exists _, _ |- _ => destruct H
         end;
  congruence.

(** Every request takes exactly one of the five paths above. *)
Lemma post_messages_paths env request w :
  exists u ides,
    ensureIdentity env request w = (Returned u, after w ides)
    /\ (ides = [] \/ ides = [SetCookie IDENTITY_COOKIE_NAME u identity_cookie_options])
    /\ ((exists m,
           (trimAndValidateText (text_of request) = Invalid m
            \/ (exists t, trimAndValidateText (text_of request) = Valid t)
               /\ trimAndValidateDisplayName (displayName_of request) u = Invalid m)
           /\ post_messages env request w
              = (Returned {| status := 400; body := validation_error m |},
                 after w (ides ++ [Send 400 (validation_error m)])))
        \/ (exists t n rl,
              trimAndValidateText (text_of request) = Valid t
              /\ trimAndValidateDisplayName (displayName_of request) u = Valid n
              /\ check (now env) (key_of request u) (rateLimiter w) = (false, rl)
              /\ post_messages env request w
                 = (Returned {| status := 429; body := rate_limit_exceeded |},
                    {| rateLimiter := rl; table := table w;
                       trace := trace w ++ ides
                                ++ [RateCheck (key_of request u) false;
                                    Send 429 rate_limit_exceeded] |}))
        \/ (exists t n rl e,
              trimAndValidateText (text_of request) = Valid t
              /\ trimAndValidateDisplayName (displayName_of request) u = Valid n
              /\ check (now env) (key_of request u) (rateLimiter w) = (true, rl)
              /\ db_error env = Some e
              /\ post_messages env request w
                 = (Returned {| status := 500; body := server_error |},
                    {| rateLimiter := rl; table := table w;
                       trace := trace w ++ ides
                                ++ [RateCheck (key_of request u) true;
                                    DbCreate (uuid env) t u n false;
                                    LogError e (lit "Could not create message");
                                    Send 500 server_error] |}))
        \/ (exists t n rl,
              trimAndValidateText (text_of request) = Valid t
              /\ trimAndValidateDisplayName (displayName_of request) u = Valid n
              /\ check (now env) (key_of request u) (rateLimiter w) = (true, rl)
              /\ db_error env = None
              /\ let row := {| row_id := uuid env; row_text := t; row_username := u;
                               row_displayName := Some n;
                               row_createdAt := db_now env |} in
                 post_messages env request w
                 = (Returned {| status := 201;
                                body := MessageBody (normalizeMessage row) |},
                    {| rateLimiter := rl; table := table w ++ [row];
                       trace := trace w ++ ides
                                ++ [RateCheck (key_of request u) true;
                                    DbCreate (uuid env) t u n true;
                                    Emit (lit "messages:new") (normalizeMessage row);
                                    Send 201 (MessageBody (normalizeMessage row))] |}))).
Proof.
  destruct (ensureIdentity_returns env request w) as (u & ides & Hid & Hides).
  exists u, ides. split; [done|]. split; [done|].
  destruct (trimAndValidateText (text_of request)) as [t|m] eqn:Ht.
  2:{ left. exists m. split; [by left|].
      rewrite (post_text_invalid _ _ _ _ _ _ Hid Ht).
      unfold after. cbn. by rewrite app_assoc. }
  destruct (trimAndValidateDisplayName (displayName_of request) u) as [n|m] eqn:Hn.
  2:{ left. exists m. split; [right; eauto|].
      rewrite (post_displayName_invalid _ _ _ _ _ _ _ Hid Ht Hn).
      unfold after. cbn. by rewrite app_assoc. }
  right.
  destruct (check (now env) (key_of request u) (rateLimiter w)) as [ok rl] eqn:Hc.
  assert (Hc0 : check (now env) (key_of request u) (rateLimiter (after w ides)) = (ok, rl))
    by exact Hc.
  destruct ok.
  2:{ left. exists t, n, rl. repeat (split; [done|]).
      rewrite (post_denied _ _ _ _ _ _ _ _ Hid Ht Hn Hc0).
      cbn. by rewrite <- app_assoc. }
  right.
  destruct (db_error env) as [e|] eqn:He.
  - left. exists t, n, rl, e. repeat (split; [done|]).
    rewrite (post_append_failed _ _ _ _ _ _ _ _ _ Hid Ht Hn Hc0 He).
    cbn. by rewrite <- app_assoc.
  - right. exists t, n, rl. repeat (split; [done|]).
    intros row.
    rewrite (post_published _ _ _ _ _ _ _ _ Hid Ht Hn Hc0 He).
    cbn. by rewrite <- app_assoc.
Qed.

(** C3. A [POST /messages] request runs its stages in the order identity
    resolution, validation of the text and then of the display name,
    rate-limit admission, durable append, publish, and stops at the first
    stage that fails.  A validation failure replies 400 with the rate
    limiter not consulted (its state is unchanged) and the table untouched;
    an admission denial replies 429 with the table untouched and nothing
    published; in both cases the reply is the only further effect.  The
    effects of the request, in order, are those of identity resolution
    followed by the ones listed for its path. *)
Theorem post_messages_stage_order env request w :
  exists u ides out w',
    ensureIdentity env request w = (Returned u, after w ides)
    /\ (ides = [] \/ ides = [SetCookie IDENTITY_COOKIE_NAME u identity_cookie_options])
    /\ post_messages env request w = (out, w')
    /\ (forall m,
          trimAndValidateText (text_of request) = Invalid m
          \/ (exists t, trimAndValidateText (text_of request) = Valid t)
             /\ trimAndValidateDisplayName (displayName_of request) u = Invalid m ->
          trace w' = trace w ++ ides ++ [Send 400 (validation_error m)]
          /\ rateLimiter w' = rateLimiter w
          /\ table w' = table w)
    /\ (forall t n,
          trimAndValidateText (text_of request) = Valid t ->
          trimAndValidateDisplayName (displayName_of request) u = Valid n ->
          rateLimiter w' = (check (now env) (key_of request u) (rateLimiter w)).2
          /\ ((check (now env) (key_of request u) (rateLimiter w)).1 = false ->
                trace w' = trace w ++ ides
                           ++ [RateCheck (key_of request u) false;
                               Send 429 rate_limit_exceeded]
                /\ table w' = table w)
          /\ ((check (now env) (key_of request u) (rateLimiter w)).1 = true ->
              forall e, db_error env = Some e ->
                trace w' = trace w ++ ides
                           ++ [RateCheck (key_of request u) true;
                               DbCreate (uuid env) t u n false;
                               LogError e (lit "Could not create message");
                               Send 500 server_error]
                /\ table w' = table w)
          /\ ((check (now env) (key_of request u) (rateLimiter w)).1 = true ->
              db_error env = None ->
              exists row,
                table w' = table w ++ [row]
                /\ trace w' = trace w ++ ides
                              ++ [RateCheck (key_of request u) true;
                                  DbCreate (uuid env) t u n true;
                                  Emit (lit "messages:new") (normalizeMessage row);
                                  Send 201 (MessageBody (normalizeMessage row))])).
Proof.
  destruct (post_messages_paths env request w)
    as (u & ides & Hid & Hides & Hpaths).
  exists u, ides.
  destruct Hpaths as [(m0 & Hv & Hpost)
                     |[(t0 & n0 & rl & Ht & Hn & Hc & Hpost)
                     |[(t0 & n0 & rl & e0 & Ht & Hn & Hc & He & Hpost)
                      |(t0 & n0 & rl & Ht & Hn & Hc & He & Hpost)]]];
    (eexists _, _; split; [exact Hid|]; split; [exact Hides|];
     split; [exact Hpost|]); cbn [trace rateLimiter table after].
  - split.
    + intros m Hm. assert (m = m0) as -> by (clear Hpost; validation_clash).
      by rewrite <- ?app_assoc.
    + intros t n Ht Hn. exfalso. clear Hpost. validation_clash.
  - split; [intros m Hm; exfalso; clear Hpost; validation_clash|].
    intros t n Ht' Hn'. rewrite Hc. cbn [fst snd].
    assert (t = t0) as -> by congruence. assert (n = n0) as -> by congruence.
    split; [done|]. split; [done|]. split; [done|]. done.
  - split; [intros m Hm; exfalso; clear Hpost; validation_clash|].
    intros t n Ht' Hn'. rewrite Hc. cbn [fst snd].
    assert (t = t0) as -> by congruence. assert (n = n0) as -> by congruence.
    split; [done|]. split; [done|]. split.
    + intros _ e Hee. assert (e = e0) as -> by congruence. done.
    + intros _ Hnone. congruence.
  - split; [intros m Hm; exfalso; clear Hpost; validation_clash|].
    intros t n Ht' Hn'. rewrite Hc. cbn [fst snd].
    assert (t = t0) as -> by congruence. assert (n = n0) as -> by congruence.
    split; [done|]. split; [done|]. split.
    + intros _ e Hee. congruence.
    + intros _ _. eexists. split; reflexivity.
Qed.

(** Membership in an explicit list of effects, case by case. *)
Ltac effect_cases H :=
  repeat (apply elem_of_cons in H as [H | H]; [try discriminate H|]);
  try (by apply elem_of_nil in H).

Ltac effect_here :=
  repeat (first [ by apply list_elem_of_here | apply list_elem_of_further ]).

(** C4. A [POST /messages] request emits a [messages:new] event exactly when
    its durable append succeeded.  When the append fails nothing is
    published, the table is unchanged and the reply is the 500 server
    error; when it succeeds exactly one [messages:new] event is emitted,
    and its payload is the body of the 201 reply (the appended row,
    normalised). *)
Theorem post_messages_publish_iff_appended env request w :
  exists resp w' es,
    post_messages env request w = (Returned resp, w')
    /\ trace w' = trace w ++ es
    /\ (emitted es <> [] <-> exists i t u d, DbCreate i t u d true ∈ es)
    /\ (forall i t u d, DbCreate i t u d false ∈ es ->
          emitted es = []
          /\ table w' = table w
          /\ resp = {| status := 500; body := server_error |})
    /\ (forall i t u d, DbCreate i t u d true ∈ es ->
          exists row,
            table w' = table w ++ [row]
            /\ row_id row = i /\ row_text row = t /\ row_username row = u
            /\ row_displayName row = Some d
            /\ emitted es = [(lit "messages:new", normalizeMessage row)]
            /\ resp = {| status := 201; body := MessageBody (normalizeMessage row) |})
    /\ (emitted es = [] -> table w' = table w /\ status resp <> 201%nat).
Proof.
  destruct (post_messages_paths env request w)
    as (u & ides & Hid & Hides & Hpaths).
  destruct Hpaths as [(m0 & Hv & Hpost)
                     |[(t0 & n0 & rl & Ht & Hn & Hc & Hpost)
                     |[(t0 & n0 & rl & e0 & Ht & Hn & Hc & He & Hpost)
                      |(t0 & n0 & rl & Ht & Hn & Hc & He & Hpost)]]];
    (eexists _, _, _; split; [exact Hpost|]);
    cbn [trace rateLimiter table after status];
    (split; [reflexivity|]);
    destruct Hides as [-> | ->]; cbn [app emitted omap list_omap].
  all: (split;
        [split; [intros Hne | intros (i & t & u' & d & Hin)]
        |split; [intros i t u' d Hin
                |split; [intros i t u' d Hin | intros Hemp]]]).
  all: try done.
  all: try (by effect_cases Hin).
  all: try (eexists _, _, _, _; by effect_here).
  all: try (effect_cases Hin; by repeat split).
  all: effect_cases Hin; injection Hin as <- <- <- <-;
    eexists; repeat split; reflexivity.
Qed.




(** The handler on a body that is missing, or is not an object with a
    [text] property: it answers 400 [validation_error], "text must be a
    string", and returns (it does not throw, so under [serve] the error
    handler is not reached and logs nothing); the rate limiter and the
    table are untouched, and the reply is the request's only effect after
    identity resolution. *)
Theorem post_messages_missing_text env request w :
  lacks_text (request_body request) ->
  exists u ides,
    ensureIdentity env request w = (Returned u, after w ides)
    /\ post_messages env request w
       = (Returned {| status := 400;
                      body := validation_error (lit "text must be a string") |},
          after w (ides ++ [Send 400 (validation_error (lit "text must be a string"))]))
    /\ serve (post_messages env request) w = post_messages env request w.
Proof.
  intros Hb.
  assert (Ht : trimAndValidateText (text_of request)
               = Invalid (lit "text must be a string")).
  { destruct (request_body request); try done.
    unfold lacks_text in Hb. cbn [optional_member]. by rewrite Hb. }
  destruct (ensureIdentity_returns env request w) as (u & ides & Hid & _).
  exists u, ides. split; [done|].
  assert (Hp := post_text_invalid _ _ _ _ _ _ Hid Ht).
  assert (Hp' : post_messages env request w
       = (Returned {| status := 400;
                      body := validation_error (lit "text must be a string") |},
          after w (ides ++ [Send 400 (validation_error (lit "text must be a string"))]))).
  { rewrite Hp. unfold after. cbn. by rewrite app_assoc. }
  split; [done|].
  unfold serve, try_catch. by rewrite Hp'.
Qed.

(** C10. A [POST /messages] request whose body reaches the handler
    missing ([undefined], as for a request without payload and without
    content type), or as anything that is not an object with a [text]
    property, is answered by the handler with 400 [validation_error],
    "text must be a string": the handler does not throw, nothing is
    logged, the error handler is not reached, and the reply is the only
    effect after identity resolution.  A request whose body the
    framework's parser refuses, as it does the empty payload sent as
    [application/json], never reaches the handler: the error handler logs
    the parser's error and answers 500 "Internal server error", and no
    identity is resolved. *)
Theorem post_messages_route_missing_text env request w :
  (forall body, lacks_text body ->
     exists u ides,
       ensureIdentity env request w = (Returned u, after w ides)
       /\ post_messages_route (BodyParsed body) env request w
          = (Returned {| status := 400;
                         body := validation_error (lit "text must be a string") |},
             after w (ides ++ [Send 400 (validation_error (lit "text must be a string"))]))
       /\ (forall error message, LogError error message ∉ ides))
  /\ (forall error,
        post_messages_route (BodyRejected error) env request w
        = (Returned {| status := 500;
                       body := ErrorBody (lit "server_error")
                                 (lit "Internal server error") |},
           after w [LogError error (lit "Unhandled request error");
                    Send 500 (ErrorBody (lit "server_error")
                                (lit "Internal server error"))]))
  /\ (exists u ides,
        post_messages_route (parse_empty_payload false) env request w
        = (Returned {| status := 400;
                       body := validation_error (lit "text must be a string") |},
           after w (ides ++ [Send 400 (validation_error (lit "text must be a string"))]))
        /\ ensureIdentity env request w = (Returned u, after w ides))
  /\ post_messages_route (parse_empty_payload true) env request w
     = (Returned {| status := 500;
                    body := ErrorBody (lit "server_error")
                              (lit "Internal server error") |},
        after w [LogError (lit "FST_ERR_CTP_EMPTY_JSON_BODY")
                   (lit "Unhandled request error");
                 Send 500 (ErrorBody (lit "server_error")
                             (lit "Internal server error"))]).
Proof.
  assert (Hhandler : forall body, lacks_text body ->
     exists u ides,
       ensureIdentity env request w = (Returned u, after w ides)
       /\ post_messages_route (BodyParsed body) env request w
          = (Returned {| status := 400;
                         body := validation_error (lit "text must be a string") |},
             after w (ides ++ [Send 400 (validation_error (lit "text must be a string"))]))
       /\ (forall error message, LogError error message ∉ ides)).
  { intros body Hb.
    assert (Ht : trimAndValidateText (text_of (with_body request body))
                 = Invalid (lit "text must be a string")).
    { unfold text_of. cbn [request_body with_body].
      destruct body; try done.
      unfold lacks_text in Hb. cbn [optional_member]. by rewrite Hb. }
    assert (Hsame : ensureIdentity env (with_body request body) w
                    = ensureIdentity env request w) by reflexivity.
    destruct (ensureIdentity_returns env request w) as (u & ides & Hid & Hides).
    exists u, ides. split; [done|].
    assert (Hid' := Hid). rewrite <- Hsame in Hid'.
    assert (Hp := post_text_invalid _ _ _ _ _ _ Hid' Ht).
    split.
    - unfold post_messages_route, serve, try_catch. rewrite Hp.
      unfold after. cbn. by rewrite app_assoc.
    - intros error message Hin. destruct Hides as [->| ->].
      + by apply not_elem_of_nil in Hin.
      + apply list_elem_of_singleton in Hin. discriminate. }
  assert (Hrejected : forall error,
        post_messages_route (BodyRejected error) env request w
        = (Returned {| status := 500;
                       body := ErrorBody (lit "server_error")
                                 (lit "Internal server error") |},
           after w [LogError error (lit "Unhandled request error");
                    Send 500 (ErrorBody (lit "server_error")
                                (lit "Internal server error"))])).
  { intros error.
    unfold post_messages_route, errorHandler, log_error, reply_send, bind, tell, ret, after.
    cbn. by rewrite <- app_assoc. }
  split; [exact Hhandler|].
  split; [exact Hrejected|].
  split; [|apply Hrejected].
  destruct (Hhandler JUndefined I) as (u & ides & Hid & Hroute & _).
  exists u, ides. done.
Qed.

End IngressFacts.

(** C10, as stated, fails for a [POST /messages] sent as
    [application/json] with no payload: the body is entirely missing, yet
    the request is refused by the framework's parser before the handler
    runs, the error handler logs the parser's error, and the answer is 500
    "Internal server error", not 400. *)
Lemma post_messages_empty_json_counterexample :
  parse_empty_payload true = BodyRejected (lit "FST_ERR_CTP_EMPTY_JSON_BODY")
  /\ post_messages_route (P := example_platform) (parse_empty_payload true)
       example_env (example_request JUndefined) example_world
     = (Returned {| status := 500;
                    body := ErrorBody (lit "server_error")
                              (lit "Internal server error") |},
        after example_world
          [LogError (lit "FST_ERR_CTP_EMPTY_JSON_BODY") (lit "Unhandled request error");
           Send 500 (ErrorBody (lit "server_error") (lit "Internal server error"))])
  /\ status (default {| status := 0; body := IdentityBody [] |}
               (match (post_messages_route (P := example_platform)
                         (parse_empty_payload true) example_env
                         (example_request JUndefined) example_world).1 with
                | Returned response => Some response
                | Thrown _ => None
                end)) <> 400%nat.
Proof.
  split; [reflexivity|].
  split; [vm_compute; reflexivity|].
  vm_compute. discriminate.
Qed.

(** A body with a display name and no text is refused by the handler. *)
Lemma post_messages_missing_text_witness :
  lacks_text (request_body (example_request_with_cookie []))
  /\ exists u ides,
       ensureIdentity (P := example_platform) example_env
         (example_request_with_cookie []) example_world
       = (Returned u, after example_world ides)
       /\ post_messages (P := example_platform) example_env
            (example_request_with_cookie []) example_world
          = (Returned {| status := 400;
                         body := ErrorBody (lit "validation_error")
                                   (lit "text must be a string") |},
             after example_world
               (ides ++ [Send 400 (ErrorBody (lit "validation_error")
                                     (lit "text must be a string"))]))
       /\ serve (post_messages (P := example_platform) example_env
                   (example_request_with_cookie [])) example_world
          = post_messages (P := example_platform) example_env
              (example_request_with_cookie []) example_world.
Proof.
  split; [reflexivity|].
  apply (post_messages_missing_text (P := example_platform) example_env
           (example_request_with_cookie []) example_world).
  reflexivity.
Defined.

Section IdentityFacts.
Context {L : Type} {RL : RateLimiter L} {P : Platform}.
Implicit Types (env : Env) (request : Request) (w : World L).

Lemma after_neq w (e : Effect) : after w [e] <> w.
Proof.
  intros E. apply (f_equal (fun x => length (trace x))) in E.
  cbn in E. rewrite length_app in E. cbn in E. lia.
Qed.

Lemma without_identity_cookie_carries request u :
  ~ carries_identity (without_identity_cookie request) u.
Proof.
  intros (c & Hc & _). cbn in Hc. by rewrite lookup_delete_eq in Hc.
Qed.

Lemma ensureIdentity_mints env request w :
  (forall u, ~ carries_identity request u) ->
  ensureIdentity env request w
  = (Returned (generateUsername env),
     after w [SetCookie IDENTITY_COOKIE_NAME (generateUsername env)
                identity_cookie_options]).
Proof.
  intros Hno. destruct (ensureIdentity_run env request w) as [(u & Hu & _) | [_ E]].
  - by destruct (Hno u).
  - exact E.
Qed.

(** C9. [ensureIdentity] returns the existing identity, setting no cookie,
    exactly when the identity cookie is present, is a non-empty string,
    passes signature verification and unsigns to a non-empty value.  In
    every other case, in particular for an empty-string cookie and for a
    correctly signed cookie whose unsigned value is empty, it does what it
    does for a request without the cookie: it mints a fresh username and
    sets it as the new cookie. *)
Theorem ensureIdentity_existing_only env request w :
  (forall u, carries_identity request u ->
     ensureIdentity env request w = (Returned u, w))
  /\ (forall u, ensureIdentity env request w = (Returned u, w) ->
        carries_identity request u)
  /\ ((forall u, ~ carries_identity request u) ->
        ensureIdentity env request w
        = ensureIdentity env (without_identity_cookie request) w
        /\ ensureIdentity env request w
           = (Returned (generateUsername env),
              after w [SetCookie IDENTITY_COOKIE_NAME (generateUsername env)
                         identity_cookie_options]))
  /\ (cookies request !! IDENTITY_COOKIE_NAME = Some []
      \/ (exists signedCookie,
            cookies request !! IDENTITY_COOKIE_NAME = Some signedCookie
            /\ valid (unsignCookie signedCookie) = true
            /\ value (unsignCookie signedCookie) = Some []) ->
      ensureIdentity env request w
      = ensureIdentity env (without_identity_cookie request) w
      /\ ensureIdentity env request w
         = (Returned (generateUsername env),
            after w [SetCookie IDENTITY_COOKIE_NAME (generateUsername env)
                       identity_cookie_options])).
Proof.
  assert (Hmint : (forall u, ~ carries_identity request u) ->
            ensureIdentity env request w
            = ensureIdentity env (without_identity_cookie request) w
            /\ ensureIdentity env request w
               = (Returned (generateUsername env),
                  after w [SetCookie IDENTITY_COOKIE_NAME (generateUsername env)
                             identity_cookie_options])).
  { intros Hno. rewrite (ensureIdentity_mints env request w Hno).
    rewrite (ensureIdentity_mints env (without_identity_cookie request) w); [done|].
    apply without_identity_cookie_carries. }
  split; [|split; [|split; [exact Hmint|]]].
  - intros u Hu.
    destruct (ensureIdentity_run env request w) as [(u' & Hu' & E) | [Hno _]].
    + by rewrite (carries_identity_unique _ _ _ Hu Hu').
    + by destruct (Hno u).
  - intros u E.
    destruct (ensureIdentity_run env request w) as [(u' & Hu' & E') | [_ E']].
    + congruence.
    + rewrite E' in E. injection E as _ E. by apply after_neq in E.
  - intros Hcookie. apply Hmint. intros u (c & Hc & Hne & Hval & Hv & Hu).
    destruct Hcookie as [Hempty | (c' & Hc' & _ & Hv')]; congruence.
Qed.

(** C6, as the code has it.  A non-empty identity cookie that verifies and
    carries a non-empty username makes [ensureIdentity] return exactly that
    username and set no cookie.  When the cookie is absent or its
    verification fails, a fresh username of the shape [Adjective-Noun-DDDD]
    is minted and exactly one cookie is set, signed and bound to that
    username; a failed verification is treated like an absent cookie. *)
Theorem ensureIdentity_resolution env request w :
  (forall signedCookie u,
     cookies request !! IDENTITY_COOKIE_NAME = Some signedCookie ->
     signedCookie <> [] ->
     valid (unsignCookie signedCookie) = true ->
     value (unsignCookie signedCookie) = Some u ->
     u <> [] ->
     ensureIdentity env request w = (Returned u, w))
  /\ (cookies request !! IDENTITY_COOKIE_NAME = None
      \/ (exists signedCookie,
            cookies request !! IDENTITY_COOKIE_NAME = Some signedCookie
            /\ valid (unsignCookie signedCookie) = false) ->
      exists fresh,
        username_pattern fresh
        /\ ensureIdentity env request w
           = (Returned fresh,
              after w [SetCookie IDENTITY_COOKIE_NAME fresh identity_cookie_options])
        /\ signed identity_cookie_options = true
        /\ ensureIdentity env request w
           = ensureIdentity env (without_identity_cookie request) w).
Proof.
  split.
  - intros c u Hc Hne Hval Hv Hu.
    destruct (ensureIdentity_run env request w) as [(u' & Hu' & E) | [Hno _]].
    + rewrite E. f_equal. f_equal.
      apply (carries_identity_unique request); [done|].
      exists c. repeat split; done.
    + destruct (Hno u). exists c. repeat split; done.
  - intros Hcookie.
    assert (Hno : forall u, ~ carries_identity request u).
    { intros u (c & Hc & _ & Hval & _).
      destruct Hcookie as [Hnone | (c' & Hc' & Hval')]; congruence. }
    exists (generateUsername env).
    split; [apply generateUsername_pattern|].
    split; [by apply ensureIdentity_mints|].
    split; [done|].
    rewrite (ensureIdentity_mints env request w Hno).
    rewrite (ensureIdentity_mints env (without_identity_cookie request) w); [done|].
    apply without_identity_cookie_carries.
Qed.

End IdentityFacts.

(** C6, as stated, fails for a correctly signed cookie that carries the
    empty string: the cookie verifies, yet the embedded value is not
    returned; a fresh username is minted and a new cookie is set. *)
Lemma ensureIdentity_empty_username_counterexample :
  valid (unsignCookie (Platform := example_platform) (example_sign [])) = true
  /\ value (unsignCookie (Platform := example_platform) (example_sign [])) = Some []
  /\ ensureIdentity (P := example_platform) example_env
       (example_request_with_cookie (example_sign [])) example_world
     = (Returned (lit "Calm-Fox-0001"),
        after example_world
          [SetCookie IDENTITY_COOKIE_NAME (lit "Calm-Fox-0001")
             (identity_cookie_options (P := example_platform))])
  /\ ensureIdentity (P := example_platform) example_env
       (example_request_with_cookie (example_sign [])) example_world
     <> (Returned [], example_world).
Proof.
  split; [vm_compute; reflexivity|].
  split; [vm_compute; reflexivity|].
  split; [vm_compute; reflexivity|].
  vm_compute. discriminate.
Qed.

(** ** Decimal numerals and [parseInt] *)

Lemma digits_value_app (ds : jsstring) (c : N) :
  digits_value (ds ++ [c]) = digits_value ds * 10 + (c - 48).
Proof. unfold digits_value. by rewrite fold_left_app. Qed.

Lemma isDigit_mod (n : N) : isDigit (48 + n mod 10) = true.
Proof.
  pose proof (N.mod_upper_bound n 10 ltac:(done)) as Hr.
  unfold isDigit. set (r := n mod 10) in *. clearbody r.
  apply andb_true_intro. split; apply N.leb_le; lia.
Qed.

(** With enough fuel, [digits_from] puts in front of the accumulator the
    non-empty decimal numeral of [n]. *)
Lemma digits_from_spec (fuel : nat) : forall (n : N) (acc : jsstring),
  n < 2 ^ N.of_nat (S fuel) ->
  exists ds,
    digits_from fuel n acc = ds ++ acc
    /\ ds <> []
    /\ Forall (fun c => isDigit c = true) ds
    /\ digits_value ds = n.
Proof.
  assert (Hone : forall n acc, n < 10 ->
            exists ds, (48 + n mod 10) :: acc = ds ++ acc /\ ds <> []
                       /\ Forall (fun c => isDigit c = true) ds /\ digits_value ds = n).
  { intros n acc Hn. exists [48 + n mod 10]. repeat split; [done| |].
    - constructor; [apply isDigit_mod|constructor].
    - unfold digits_value. cbn. rewrite N.mod_small by done. lia. }
  induction fuel as [|fuel IH]; intros n acc Hn.
  - cbn [digits_from]. apply Hone. cbn in Hn. lia.
  - cbn [digits_from]. destruct (n / 10 =? 0) eqn:E.
    + apply N.eqb_eq in E. apply Hone.
      apply N.div_small_iff in E; [done|done].
    + destruct (IH (n / 10) ((48 + n mod 10) :: acc)) as (ds & Hds & Hne & Hall & Hval).
      { rewrite Nat2N.inj_succ, N.pow_succ_r' in Hn.
        apply N.Div0.div_lt_upper_bound.
        set (p := 2 ^ N.of_nat (S fuel)) in *. clearbody p. lia. }
      exists (ds ++ [48 + n mod 10]). repeat split.
      * by rewrite Hds, <- app_assoc.
      * by destruct ds.
      * apply Forall_app. split; [done|].
        constructor; [apply isDigit_mod|constructor].
      * rewrite digits_value_app, Hval.
        pose proof (N.div_mod n 10 ltac:(done)) as Hdm.
        set (q := n / 10) in *. set (r := n mod 10) in *. clearbody q r. lia.
Qed.

Lemma digits_spec (n : N) :
  digits n <> []
  /\ Forall (fun c => isDigit c = true) (digits n)
  /\ digits_value (digits n) = n.
Proof.
  destruct (digits_from_spec (N.to_nat (N.log2 n)) n []) as (ds & Hds & H).
  { rewrite Nat2N.inj_succ, N2Nat.id.
    destruct (decide (n = 0)) as [->|Hn]; [done|].
    apply N.log2_spec. lia. }
  unfold digits. rewrite Hds, app_nil_r. exact H.
Qed.

Lemma leading_digits_all (ds : jsstring) :
  Forall (fun c => isDigit c = true) ds -> leading_digits ds = ds.
Proof. induction 1 as [|c ds Hc _ IH]; cbn; [done|]. by rewrite Hc, IH. Qed.

Lemma isDigit_not_trimmable (c : N) : isDigit c = true -> isTrimmable c = false.
Proof.
  unfold isDigit. intros [H1 H2]%andb_prop.
  apply N.leb_le in H1, H2.
  unfold isTrimmable, isWhiteSpace, isLineTerminator.
  repeat match goal with
         | |- context [?a =? ?b] =>
             replace (a =? b) with false by (symmetry; apply N.eqb_neq; lia)
         | |- context [?a <=? ?b] =>
             replace (a <=? b) with false by (symmetry; apply N.leb_gt; lia)
         end.
  reflexivity.
Qed.

(** [parseInt] reads the decimal numeral of an integer back as the Number
    value of that integer. *)
Lemma Number_parseInt_toString (z : Z) :
  Number_parseInt (Number_toString z) = round_to_double z.
Proof.
  unfold Number_toString, Number_parseInt.
  destruct (z <? 0)%Z eqn:Hz.
  - apply Z.ltb_lt in Hz.
    destruct (digits_spec (Z.to_N (- z))) as (Hne & Hall & Hval).
    cbn [trimStart]. replace (isTrimmable 45) with false by reflexivity.
    replace (45 =? 45) with true by reflexivity.
    rewrite leading_digits_all by done.
    destruct (digits (Z.to_N (- z))) as [|c ds] eqn:Ed; [done|].
    cbn [length Nat.eqb]. rewrite Hval. f_equal. lia.
  - apply Z.ltb_ge in Hz.
    destruct (digits_spec (Z.to_N z)) as (Hne & Hall & Hval).
    destruct (digits (Z.to_N z)) as [|c ds] eqn:Ed; [done|].
    assert (Hc : isDigit c = true) by (by inversion Hall).
    cbn [trimStart]. rewrite (isDigit_not_trimmable c Hc).
    unfold isDigit in Hc. apply andb_prop in Hc as [H1 H2].
    apply N.leb_le in H1, H2.
    replace (c =? 45) with false by (symmetry; apply N.eqb_neq; lia).
    replace (c =? 43) with false by (symmetry; apply N.eqb_neq; lia).
    rewrite leading_digits_all by done.
    cbn [length Nat.eqb]. rewrite Hval. f_equal. lia.
Qed.

(** ** Rounding to a double, as far as the clamp can tell *)

Local Open Scope Z_scope.

Lemma round_to_double_small (z : Z) :
  Z.abs z < 2 ^ 53 -> round_to_double z = Finite z.
Proof.
  intros Hz. unfold round_to_double. cbv zeta.
  assert (Hlog : Z.log2 (Z.abs z) < 53).
  { destruct (decide (Z.abs z = 0)) as [->|Hne]; [done|].
    apply Z.log2_lt_pow2; lia. }
  replace (Z.log2 (Z.abs z) + 1 <=? 53) with true; [done|].
  symmetry. apply Z.leb_le. lia.
Qed.

(** From [2^53] on, rounding keeps the sign and stays at or above [2^53]
    in magnitude, or overflows to the infinity of that sign. *)
Lemma round_to_double_big (z : Z) :
  2 ^ 53 <= Z.abs z ->
  (exists v, 2 ^ 53 <= v /\ round_to_double z = Finite (Z.sgn z * v))
  \/ (0 < z /\ round_to_double z = PosInfinity)
  \/ (z < 0 /\ round_to_double z = NegInfinity).
Proof.
  intros Hz. unfold round_to_double. cbv zeta.
  set (a := Z.abs z) in *.
  assert (Hlog : 53 <= Z.log2 a) by (apply Z.log2_le_pow2; lia).
  replace (Z.log2 a + 1 <=? 53) with false by (symmetry; apply Z.leb_gt; lia).
  set (shift := Z.log2 a + 1 - 53).
  assert (Hshift : 1 <= shift) by (unfold shift; lia).
  rewrite Z.shiftr_div_pow2 by lia.
  assert (Hpow : 0 < 2 ^ shift) by (apply Z.pow_pos_nonneg; lia).
  assert (Hq : 2 ^ 52 <= a / 2 ^ shift).
  { apply Z.div_le_lower_bound; [done|].
    rewrite <- Z.pow_add_r by lia.
    replace (shift + 52) with (Z.log2 a) by (unfold shift; lia).
    apply Z.log2_spec. lia. }
  set (q := a / 2 ^ shift) in *.
  set (q' := if _ : bool then q + 1 else q).
  assert (Hq' : 2 ^ 52 <= q') by (unfold q'; destruct (_ || _); lia).
  rewrite Z.shiftl_mul_pow2 by lia.
  assert (Hv : 2 ^ 53 <= q' * 2 ^ shift).
  { change (2 ^ 53) with (2 ^ 52 * 2 ^ 1).
    apply Z.mul_le_mono_nonneg; [done|done|done|].
    apply Z.pow_le_mono_r; lia. }
  destruct (2 ^ 1024 <=? q' * 2 ^ shift).
  - right. destruct (z <? 0) eqn:Es.
    + right. apply Z.ltb_lt in Es. done.
    + left. apply Z.ltb_ge in Es. split; [|done]. unfold a in Hz. lia.
  - left. eauto.
Qed.

(** Below [2^1023] in magnitude nothing overflows. *)
Lemma round_to_double_finite (z : Z) :
  Z.abs z < 2 ^ 1023 -> exists v, round_to_double z = Finite v.
Proof.
  intros Hz. unfold round_to_double. cbv zeta.
  set (a := Z.abs z) in *.
  destruct (Z.log2 a + 1 <=? 53) eqn:Eb; [eauto|].
  apply Z.leb_gt in Eb.
  assert (Ha : 0 < a).
  { destruct (decide (a = 0)) as [E0|]; [|unfold a in *; lia].
    rewrite E0 in Eb. cbn in Eb. lia. }
  assert (Hlog : Z.log2 a < 1023) by (apply Z.log2_lt_pow2; lia).
  set (shift := Z.log2 a + 1 - 53) in *.
  assert (Hshift : 1 <= shift <= 970) by (unfold shift; lia).
  rewrite Z.shiftr_div_pow2 by lia.
  assert (Hpow : 0 < 2 ^ shift) by (apply Z.pow_pos_nonneg; lia).
  assert (Hq : a / 2 ^ shift < 2 ^ 53).
  { apply Z.div_lt_upper_bound; [done|].
    rewrite <- Z.pow_add_r by lia.
    replace (shift + 53) with (Z.succ (Z.log2 a)) by (unfold shift; lia).
    apply Z.log2_spec. lia. }
  set (q := a / 2 ^ shift) in *.
  set (q' := if _ : bool then q + 1 else q).
  assert (Hq' : q' <= 2 ^ 53) by (unfold q'; destruct (_ || _); lia).
  assert (Hq0 : 0 <= q').
  { assert (0 <= q) by (apply Z.div_pos; lia).
    unfold q'; destruct (_ || _); lia. }
  rewrite Z.shiftl_mul_pow2 by lia.
  assert (Hv : q' * 2 ^ shift <= 2 ^ 53 * 2 ^ 970).
  { apply Z.mul_le_mono_nonneg; [done|done|lia|].
    apply Z.pow_le_mono_r; lia. }
  replace (2 ^ 1024 <=? q' * 2 ^ shift) with false; [eauto|].
  symmetry. apply Z.leb_gt.
  eapply Z.le_lt_trans; [exact Hv|]. rewrite <- Z.pow_add_r by lia.
  apply Z.pow_lt_mono_r; lia.
Qed.

Lemma round_to_double_negative_infinity (z : Z) :
  round_to_double z = NegInfinity -> z < 0.
Proof.
  unfold round_to_double. cbv zeta.
  destruct (_ <=? 53); [discriminate|].
  destruct (2 ^ 1024 <=? _); [|discriminate].
  destruct (Z.ltb_spec z 0); [done|discriminate].
Qed.

(** ** The limit of a history query *)

Lemma history_limit_range (q : option jsstring) : 1 <= history_limit q <= 200.
Proof.
  unfold history_limit. destruct q as [s|]; [|lia].
  destruct (Number_parseInt s); lia.
Qed.

(** A [limit] written as the decimal numeral of [z] asks for
    [min(200, max(1, z))] messages, unless [z] is so far below zero that it
    reads as [-Infinity]. *)
Lemma history_limit_numeral (z : Z) :
  round_to_double z <> NegInfinity ->
  history_limit (Some (Number_toString z)) = Z.min 200 (Z.max 1 z).
Proof.
  intros Hninf. unfold history_limit. rewrite Number_parseInt_toString.
  destruct (Z_lt_le_dec (Z.abs z) (2 ^ 53)) as [Hs|Hb].
  - rewrite round_to_double_small by done. done.
  - destruct (round_to_double_big z Hb) as [(v & Hv & ->) | [[Hz ->] | [Hz E]]].
    + assert (E53 : 2 ^ 53 = 9007199254740992) by reflexivity.
      rewrite E53 in *. destruct z; cbn [Z.sgn] in *; lia.
    + assert (E53 : 2 ^ 53 = 9007199254740992) by reflexivity.
      rewrite E53 in *. lia.
    + done.
Qed.

Lemma history_limit_numeral_finite (z : Z) :
  - 2 ^ 1023 < z ->
  history_limit (Some (Number_toString z)) = Z.min 200 (Z.max 1 z).
Proof.
  intros Hz. apply history_limit_numeral.
  destruct (Z_lt_le_dec (Z.abs z) (2 ^ 1023)) as [Hs|Hb].
  - destruct (round_to_double_finite z Hs) as [v ->]. done.
  - assert (Hb53 : 2 ^ 53 <= Z.abs z).
    { etrans; [|exact Hb]. apply Z.pow_le_mono_r; lia. }
    assert (0 < z).
    { assert (0 < 2 ^ 1023) by (apply Z.pow_pos_nonneg; lia). lia. }
    destruct (round_to_double_big z Hb53) as [(v & _ & ->) | [[_ ->] | [? _]]];
      [done|done|lia].
Qed.

Local Close Scope Z_scope.

(** ** The history query *)

#[export] Instance newer_first_transitive : Transitive newer_first.
Proof. intros x y z. unfold newer_first. lia. Qed.

#[export] Instance newer_first_total : Total newer_first.
Proof. intros x y. unfold newer_first. lia. Qed.

Lemma StronglySorted_rev {A} (R : relation A) (l : list A) :
  StronglySorted R l -> StronglySorted (flip R) (rev l).
Proof.
  induction 1 as [|x l Hl IH Hx]; cbn [rev]; [constructor|].
  apply StronglySorted_app. split; [|split; [done|repeat constructor]].
  intros x1 x2 H1 H2. apply list_elem_of_singleton in H2 as ->.
  rewrite Forall_forall in Hx. apply Hx.
  apply list_elem_of_In, in_rev, list_elem_of_In. exact H1.
Qed.

(** The [k] newest rows of a table, oldest first, and the rows left out. *)
Lemma newest_rows (k : nat) (rows : list MessageRow) :
  let newest := rev (firstn k (merge_sort newer_first rows)) in
  let older := skipn k (merge_sort newer_first rows) in
  length newest = min k (length rows)
  /\ rows ≡ₚ newest ++ older
  /\ (forall r o, r ∈ newest -> o ∈ older -> older_first o r)
  /\ StronglySorted older_first newest.
Proof.
  intros newest older.
  pose proof (StronglySorted_merge_sort newer_first rows) as Hsorted.
  pose proof (merge_sort_Permutation newer_first rows) as Hperm.
  rewrite <- (firstn_skipn k (merge_sort newer_first rows)) in Hsorted.
  split; [|split; [|split]].
  - unfold newest. rewrite length_rev, length_take. by rewrite Hperm.
  - unfold newest, older. rewrite <- Permutation_rev, firstn_skipn. done.
  - intros r o Hr Ho. unfold newest in Hr.
    apply list_elem_of_In, in_rev, list_elem_of_In in Hr.
    by apply (StronglySorted_app_1_elem_of _ _ _ _ _ Hsorted).
  - apply StronglySorted_app_1_l in Hsorted.
    apply (StronglySorted_rev _ _ Hsorted).
Qed.

Section HistoryFacts.
Context {L : Type} {RL : RateLimiter L} {P : Platform}.
Implicit Types (env : Env) (request : Request) (w : World L).

(** The limit the handler computes is the one the interface states. *)
Lemma handler_limit (q : option jsstring) :
  (let rawLimit := Number_parseInt (default (Number_toString HISTORY_MAX_LIMIT) q) in
   if Number_isFinite rawLimit
   then Math_max 1 (Math_min HISTORY_MAX_LIMIT rawLimit)
   else Finite HISTORY_MAX_LIMIT)
  = Finite (history_limit q).
Proof.
  unfold history_limit. destruct q as [s|]; cbn [from_option Datatypes.id].
  - destruct (Number_parseInt s); cbn [Number_isFinite Math_max Math_min]; try done.
    f_equal. unfold HISTORY_MAX_LIMIT. lia.
  - reflexivity.
Qed.

Lemma get_messages_run env request w u ides :
  ensureIdentity env request w = (Returned u, after w ides) ->
  let limit := history_limit (query_limit request) in
  let rows := rev (firstn (Z.to_nat limit) (merge_sort newer_first (table w))) in
  get_messages env request w
  = match db_error env with
    | None =>
        (Returned {| status := 200; body := MessagesBody (normalizeMessage <$> rows) |},
         after w (ides ++ [DbFindMany (Finite limit);
                           Send 200 (MessagesBody (normalizeMessage <$> rows))]))
    | Some e => (Thrown e, after w (ides ++ [DbFindMany (Finite limit)]))
    end.
Proof.
  intros Hid limit rows. unfold get_messages, bind. rewrite Hid.
  pose proof (handler_limit (query_limit request)) as Hl. cbv zeta in Hl.
  rewrite Hl. fold limit.
  pose proof (history_limit_range (query_limit request)) as Hr. fold limit in Hr.
  unfold prisma_message_findMany_desc.
  destruct (db_error env) as [e|].
  - unfold after. cbn. by rewrite <- app_assoc.
  - replace (0 <=? limit)%Z with true by (symmetry; apply Z.leb_le; lia).
    unfold after. cbn. by rewrite <- !app_assoc.
Qed.

(** C7. [GET /messages?limit=N] answers 200 with at most
    [min(200, max(1, N))] messages, where [N] is the finite number the
    [limit] parameter reads as, and with at most 200 when the parameter is
    absent or reads as no finite number; [limit=500] gives 200.  A decimal
    numeral reads as its own value, rounded to a double: the bound is
    [min(200, max(1, N))] for every integer [N] that does not round to
    [-Infinity], all those above [-2^1023] among them, and 200, not 1,
    for the integers so far below zero that they do.  The messages are the
    most recent rows of the table, as many as the limit allows, ordered
    oldest first by [createdAt].  (When the database call fails the error
    handler answers 500 and no message is returned.) *)
Theorem get_messages_history env request w :
  (db_error env = None ->
   exists rows older w',
     serve (get_messages env request) w
     = (Returned {| status := 200; body := MessagesBody (normalizeMessage <$> rows) |}, w')
     /\ (Z.of_nat (length rows) <= history_limit (query_limit request))%Z
     /\ length rows = min (Z.to_nat (history_limit (query_limit request)))
                          (length (table w))
     /\ table w ≡ₚ rows ++ older
     /\ (forall r o, r ∈ rows -> o ∈ older -> older_first o r)
     /\ StronglySorted older_first rows
     /\ table w' = table w)
  /\ (forall e, db_error env = Some e ->
      exists w',
        serve (get_messages env request) w
        = (Returned {| status := 500;
                       body := ErrorBody (lit "server_error")
                                 (lit "Internal server error") |}, w')
        /\ table w' = table w)
  /\ (1 <= history_limit (query_limit request) <= 200)%Z
  /\ (query_limit request = None -> history_limit (query_limit request) = 200%Z)
  /\ (forall s, query_limit request = Some s ->
        Number_isFinite (Number_parseInt s) = false ->
        history_limit (query_limit request) = 200%Z)
  /\ (forall s n, query_limit request = Some s ->
        Number_parseInt s = Finite n ->
        history_limit (query_limit request) = Z.min 200 (Z.max 1 n))
  /\ (forall z, query_limit request = Some (Number_toString z) ->
        (- 2 ^ 1023 < z)%Z ->
        history_limit (query_limit request) = Z.min 200 (Z.max 1 z))
  /\ (query_limit request = Some (lit "500") ->
        history_limit (query_limit request) = 200%Z)
  /\ (forall z, query_limit request = Some (Number_toString z) ->
        round_to_double z <> NegInfinity ->
        history_limit (query_limit request) = Z.min 200 (Z.max 1 z))
  /\ (forall z, query_limit request = Some (Number_toString z) ->
        round_to_double z = NegInfinity ->
        history_limit (query_limit request) = 200%Z
        /\ Z.min 200 (Z.max 1 z) = 1%Z).
Proof.
  destruct (ensureIdentity_returns env request w) as (u & ides & Hid & _).
  pose proof (get_messages_run env request w u ides Hid) as Hrun. cbv zeta in Hrun.
  pose proof (history_limit_range (query_limit request)) as Hrange.
  split; [|split; [|split; [done|split; [|split; [|split; [|split; [|split; [|split]]]]]]]].
  - intros Hdb. rewrite Hdb in Hrun.
    destruct (newest_rows (Z.to_nat (history_limit (query_limit request))) (table w))
      as (Hlen & Hperm & Hnew & Hsorted).
    eexists _, _, _. split.
    { unfold serve, try_catch. rewrite Hrun. reflexivity. }
    split; [lia|]. split; [done|]. split; [done|]. split; [done|]. split; done.
  - intros e Hdb. rewrite Hdb in Hrun.
    eexists. split.
    { unfold serve, try_catch. rewrite Hrun. reflexivity. }
    done.
  - by intros ->.
  - intros s -> Hinf. unfold history_limit. by destruct (Number_parseInt s).
  - intros s n -> Hn. unfold history_limit. by rewrite Hn.
  - intros z -> Hz. by apply history_limit_numeral_finite.
  - intros ->. reflexivity.
  - intros z -> Hz. by apply history_limit_numeral.
  - intros z -> Hz. split.
    + unfold history_limit. by rewrite Number_parseInt_toString, Hz.
    + pose proof (round_to_double_negative_infinity z Hz). lia.
Qed.

End HistoryFacts.

(** C7, as stated, fails for [limit=-1] followed by four hundred zeros,
    the numeral of [N = -10^400]: [min(200, max(1, N))] is 1, yet a table
    of two rows is answered with both, because the parameter reads as
    [-Infinity], which is not finite, and the handler falls back to 200. *)
Lemma get_messages_negative_overflow_counterexample :
  example_overflowing_limit = Number_toString (- 10 ^ 400)
  /\ Number_parseInt example_overflowing_limit = NegInfinity
  /\ Z.min 200 (Z.max 1 (- 10 ^ 400)) = 1%Z
  /\ (serve (get_messages (P := example_platform) example_env
               (example_history_request (Some example_overflowing_limit)))
        example_world_two_rows).1
     = Returned {| status := 200;
                   body := MessagesBody
                             [normalizeMessage (P := example_platform) example_older_row;
                              normalizeMessage (P := example_platform) example_newer_row] |}.
Proof.
  split; [vm_compute; reflexivity|].
  split; [vm_compute; reflexivity|].
  split; [vm_compute; reflexivity|].
  vm_compute. reflexivity.
Qed.

(** ** Worked examples *)

(** A [limit] far below the range of doubles reads as [-Infinity], which
    is not finite, so the handler falls back to 200. *)
Example history_limit_negative_overflow :
  Number_parseInt (lit "-1" ++ repeat 48%N 400) = NegInfinity
  /\ history_limit (Some (lit "-1" ++ repeat 48%N 400)) = 200%Z.
Proof. split; vm_compute; reflexivity. Qed.

Example history_limit_examples :
  history_limit (Some (lit "10")) = 10%Z
  /\ history_limit (Some (lit "0")) = 1%Z
  /\ history_limit (Some (lit "-5")) = 1%Z
  /\ history_limit (Some (lit "abc")) = 200%Z
  /\ history_limit (Some (lit "")) = 200%Z
  /\ history_limit (Some (lit "12px")) = 12%Z.
Proof. repeat split; vm_compute; reflexivity. Qed.

(** An empty text is refused with 400 before anything else happens. *)
Example post_empty_text :
  (post_messages (P := example_platform) example_env
     (example_request (JObject [Prop_ (lit "text") (JString (lit ""))]))
     example_world).1
  = Returned {| status := 400;
                body := ErrorBody (lit "validation_error") (lit "text cannot be empty") |}.
Proof. vm_compute. reflexivity. Qed.

(** A fresh client posting "hello" gets 201 with its minted username as
    display name. *)
Example post_hello :
  (post_messages (P := example_platform) example_env
     (example_request (JObject [Prop_ (lit "text") (JString (lit "hello"))]))
     example_world).1
  = Returned {| status := 201;
                body := MessageBody
                          {| id := lit "id-1"; text := lit "hello";
                             username := lit "Calm-Fox-0001";
                             displayName := lit "Calm-Fox-0001";
                             createdAt := lit "5000" |} |}.
Proof. vm_compute. reflexivity. Qed.

(** A previously issued cookie gives its username back and sets nothing. *)
Example identity_roundtrip :
  ensureIdentity (P := example_platform) example_env
    (example_request_with_cookie (example_sign (lit "Swift-Otter-0482"))) example_world
  = (Returned (lit "Swift-Otter-0482"), example_world).
Proof. vm_compute. reflexivity. Qed.

(** Eleven checks of one key inside the default window of ten: the first
    ten pass, the eleventh does not. *)
Example eleventh_call_denied :
  (run_checks (repeat (0%Z, lit "10.0.0.1:Calm-Fox-0001") 11)
     (createRateLimiter 10000 10)).1
  = repeat true 10 ++ [false].
Proof. vm_compute. reflexivity. Qed.

(* ===================================================================== *)
(** * Further properties of the backend *)
(* ===================================================================== *)

(** ** Rate-limit keys *)

Lemma first_separator_unique (c : N) (l1 : jsstring) : forall l2 r1 r2 : jsstring,
  c ∉ l1 -> c ∉ l2 -> l1 ++ c :: r1 = l2 ++ c :: r2 -> l1 = l2 /\ r1 = r2.
Proof.
  induction l1 as [|a l1 IH]; intros [|b l2] r1 r2 H1 H2 E; cbn in E.
  - by injection E as ->.
  - injection E as -> _. exfalso. apply H2. apply list_elem_of_here.
  - injection E as -> _. exfalso. apply H1. apply list_elem_of_here.
  - injection E as -> E.
    destruct (IH l2 r1 r2) as [-> ->]; [| |done|done].
    + intros Hin. apply H1. by apply list_elem_of_further.
    + intros Hin. apply H2. by apply list_elem_of_further.
Qed.

(** X1. Two rate-limit keys are equal only for the same address and the
    same username, provided the usernames contain no colon; colons in the
    address (an IPv6 address) do no harm. *)
Theorem getClientKey_injective (ip1 username1 ip2 username2 : jsstring) :
  58 ∉ username1 -> 58 ∉ username2 ->
  getClientKey ip1 username1 = getClientKey ip2 username2 ->
  ip1 = ip2 /\ username1 = username2.
Proof.
  intros H1 H2 E. unfold getClientKey in E.
  change (lit ":") with [58] in E. cbn [app] in E.
  apply (f_equal (@rev N)) in E.
  rewrite !rev_app_distr in E. cbn [rev] in E. rewrite <- !app_assoc in E.
  cbn [app] in E.
  apply first_separator_unique in E as [Eu Ei].
  - split.
    + rewrite <- (rev_involutive ip1), <- (rev_involutive ip2). by f_equal.
    + rewrite <- (rev_involutive username1), <- (rev_involutive username2). by f_equal.
  - intros Hin. apply H1. by apply list_elem_of_In, in_rev, list_elem_of_In.
  - intros Hin. apply H2. by apply list_elem_of_In, in_rev, list_elem_of_In.
Qed.

Lemma not_elem_of_by_forallb (c : N) (s : jsstring) :
  forallb (fun x => negb (x =? c)) s = true -> c ∉ s.
Proof.
  intros Hall Hin. apply list_elem_of_In in Hin.
  rewrite forallb_forall in Hall. specialize (Hall c Hin).
  by rewrite N.eqb_refl in Hall.
Qed.

Lemma getClientKey_injective_witness :
  (58 ∉ lit "Calm-Fox-0001") /\ (58 ∉ lit "Calm-Fox-0001")
  /\ getClientKey (lit "::1") (lit "Calm-Fox-0001")
     = getClientKey (lit "::1") (lit "Calm-Fox-0001")
  /\ lit "::1" = lit "::1" /\ lit "Calm-Fox-0001" = lit "Calm-Fox-0001".
Proof.
  split; [by apply not_elem_of_by_forallb|].
  split; [by apply not_elem_of_by_forallb|].
  split; [reflexivity|].
  apply (getClientKey_injective (lit "::1") (lit "Calm-Fox-0001")
           (lit "::1") (lit "Calm-Fox-0001")).
  - by apply not_elem_of_by_forallb.
  - by apply not_elem_of_by_forallb.
  - reflexivity.
Defined.

(** ** Minted usernames *)

Lemma trimStart_plain (s : jsstring) :
  Forall (fun c => isTrimmable c = false) s -> trimStart s = s.
Proof. destruct 1 as [|c s Hc _]; cbn; [done|]. by rewrite Hc. Qed.

Lemma trim_plain (s : jsstring) :
  Forall (fun c => isTrimmable c = false) s -> trim s = s.
Proof.
  intros Hs. unfold trim, trimEnd. rewrite (trimStart_plain s Hs).
  rewrite trimStart_plain; [apply rev_involutive|].
  apply Forall_forall. intros c Hc. rewrite Forall_forall in Hs.
  apply Hs. by apply list_elem_of_In, in_rev, list_elem_of_In.
Qed.

Lemma pool_entry_plain (pool : list jsstring) (lo hi : nat) (a : jsstring) :
  forallb (fun a => (lo <=? length a)%nat && (length a <=? hi)%nat && forallb plain a) pool
  = true ->
  a ∈ pool ->
  (lo <= length a <= hi)%nat /\ forallb plain a = true.
Proof.
  intros Hall Ha. rewrite forallb_forall in Hall.
  apply list_elem_of_In in Ha. specialize (Hall a Ha).
  apply andb_prop in Hall as [Hlen Hp]. apply andb_prop in Hlen as [Hlo Hhi].
  apply Nat.leb_le in Hlo, Hhi. done.
Qed.

Lemma isDigit_plain (c : N) : isDigit c = true -> plain c = true.
Proof.
  intros Hc. unfold plain. rewrite (isDigit_not_trimmable c Hc). cbn.
  unfold isDigit in Hc. apply andb_prop in Hc as [H1 H2]. apply N.leb_le in H1, H2.
  apply negb_true_iff, N.eqb_neq. lia.
Qed.

Lemma generateUsername_length (env : Env) :
  (13 <= length (generateUsername env) <= 20)%nat.
Proof.
  destruct (generateUsername_pattern env)
    as (a & n & d1 & d2 & d3 & d4 & Ha & Hn & _ & _ & _ & _ & E).
  destruct (pool_entry_plain adjectivePool 4 7 a eq_refl Ha) as [Hla _].
  destruct (pool_entry_plain nounPool 3 7 n eq_refl Hn) as [Hln _].
  rewrite E, !length_app. cbn [length lit]. cbn. lia.
Qed.

(** X2. A minted username has between 13 and 20 code units, none of them
    white space or a colon; so it is its own trimmed form, the display-name
    validator returns it unchanged, and it can sit in a rate-limit key. *)
Theorem generateUsername_wellformed (env : Env) :
  (13 <= length (generateUsername env) <= 20)%nat
  /\ forallb plain (generateUsername env) = true
  /\ (58 ∉ generateUsername env)
  /\ trim (generateUsername env) = generateUsername env
  /\ forall fallback,
       trimAndValidateDisplayName (JString (generateUsername env)) fallback
       = Valid (generateUsername env).
Proof.
  destruct (generateUsername_pattern env)
    as (a & n & d1 & d2 & d3 & d4 & Ha & Hn & H1 & H2 & H3 & H4 & E).
  destruct (pool_entry_plain adjectivePool 4 7 a eq_refl Ha) as [Hla Hpa].
  destruct (pool_entry_plain nounPool 3 7 n eq_refl Hn) as [Hln Hpn].
  assert (Hlen : (13 <= length (generateUsername env) <= 20)%nat).
  { rewrite E, !length_app. cbn [length lit]. cbn. lia. }
  assert (Hplain : forallb plain (generateUsername env) = true).
  { rewrite E, !forallb_app, Hpa, Hpn. cbn [forallb lit].
    rewrite !isDigit_plain by done. reflexivity. }
  assert (Htrimmable : Forall (fun c => isTrimmable c = false) (generateUsername env)).
  { apply Forall_forall. intros c Hc. rewrite forallb_forall in Hplain.
    apply list_elem_of_In in Hc. specialize (Hplain c Hc).
    unfold plain in Hplain. apply andb_prop in Hplain as [Ht _].
    by apply negb_true_iff in Ht. }
  assert (Htrim : trim (generateUsername env) = generateUsername env)
    by (by apply trim_plain).
  split; [done|]. split; [done|]. split.
  { apply not_elem_of_by_forallb. rewrite forallb_forall in Hplain.
    apply forallb_forall. intros c Hc. specialize (Hplain c Hc).
    unfold plain in Hplain. by apply andb_prop in Hplain as [_ ?]. }
  split; [done|].
  intros fallback. rewrite trimAndValidateDisplayName_string, Htrim.
  rewrite decide_False by (intros E0; rewrite E0 in Hlen; cbn in Hlen; lia).
  by rewrite decide_False by lia.
Qed.

(** ** What the handlers leave in the table *)

Section StoredRows.
Context {L : Type} {RL : RateLimiter L} {P : Platform}.
Implicit Types (env : Env) (request : Request) (w : World L).

Lemma ensureIdentity_result env request w :
  exists u ides,
    ensureIdentity env request w = (Returned u, after w ides)
    /\ u <> []
    /\ (ides = [] \/ ides = [SetCookie IDENTITY_COOKIE_NAME u identity_cookie_options]).
Proof.
  destruct (ensureIdentity_run env request w) as [(u & Hu & E) | (_ & E)].
  - exists u, []. split; [|split; [|by left]].
    + rewrite E. unfold after. rewrite app_nil_r. by destruct w.
    + by destruct Hu as (c & _ & _ & _ & _ & Hne).
  - eexists _, _. split; [exact E|]. split; [|by right].
    apply generateUsername_nonempty.
Qed.

(** X3. Identity resolution always returns, with a username that is not
    empty, and sets at most one cookie, which carries that username. *)
Theorem ensureIdentity_nonempty env request w :
  exists u ides,
    ensureIdentity env request w = (Returned u, after w ides)
    /\ u <> []
    /\ (ides = [] \/ ides = [SetCookie IDENTITY_COOKIE_NAME u identity_cookie_options]).
Proof.
  destruct (ensureIdentity_run env request w) as [(u & Hu & E) | (_ & E)].
  - exists u, []. split; [|split; [|by left]].
    + rewrite E. unfold after. rewrite app_nil_r. by destruct w.
    + by destruct Hu as (c & _ & _ & _ & _ & Hne).
  - exists (generateUsername env),
      [SetCookie IDENTITY_COOKIE_NAME (generateUsername env) identity_cookie_options].
    split; [exact E|]. split; [apply generateUsername_nonempty|by right].
Qed.

Lemma trimAndValidateText_valid (raw : JSValue) (t : jsstring) :
  trimAndValidateText raw = Valid t ->
  trim t = t /\ (1 <= length t <= 1000)%nat.
Proof.
  destruct raw; try discriminate.
  rewrite trimAndValidateText_string.
  destruct (decide (trim s = [])) as [|Hne]; [done|].
  destruct (decide (1000 < length (trim s))%nat); [done|].
  intros [= <-]. split; [apply trim_idem|].
  destruct (trim s); [done|]. cbn in *. lia.
Qed.

Lemma trimAndValidateDisplayName_valid (raw : JSValue) (fallback d : jsstring) :
  trimAndValidateDisplayName raw fallback = Valid d ->
  d = fallback \/ (d <> [] /\ trim d = d /\ (length d <= 64)%nat).
Proof.
  destruct raw; try discriminate; try (intros [= <-]; by left).
  rewrite trimAndValidateDisplayName_string.
  destruct (decide (trim s = [])) as [|Hne]; [intros [= <-]; by left|].
  destruct (decide (64 < length (trim s))%nat); [done|].
  intros [= <-]. right. split; [done|]. split; [apply trim_idem|lia].
Qed.

(** X4. [POST /messages] only ever appends to the table: it leaves the
    table as it was, or adds one row at the end, with the request's id and
    the database's timestamp.  The row's text is trimmed and has 1 to 1000
    code units, its username is not empty, and its display name is set,
    not empty, and either the username or a trimmed name of at most 64
    code units.  So a table of such rows stays one. *)
Theorem post_messages_appends_well_formed env request w :
  (table (post_messages env request w).2 = table w
   \/ exists row,
        table (post_messages env request w).2 = table w ++ [row]
        /\ stored_well row
        /\ row_id row = uuid env
        /\ row_createdAt row = db_now env)
  /\ (Forall stored_well (table w) ->
      Forall stored_well (table (post_messages env request w).2)).
Proof.
  assert (Hcases :
    table (post_messages env request w).2 = table w
    \/ exists row,
         table (post_messages env request w).2 = table w ++ [row]
         /\ stored_well row
         /\ row_id row = uuid env
         /\ row_createdAt row = db_now env).
  { destruct (post_messages_paths env request w)
      as (u & ides & Hid & Hides & Hpaths).
    assert (Hu : u <> []).
    { destruct (ensureIdentity_result env request w) as (u' & ides' & Hid' & Hne & _).
      congruence. }
    destruct Hpaths as [(m0 & Hv & Hpost)
                       |[(t0 & n0 & rl & Ht & Hn & Hc & Hpost)
                       |[(t0 & n0 & rl & e0 & Ht & Hn & Hc & He & Hpost)
                        |(t0 & n0 & rl & Ht & Hn & Hc & He & Hpost)]]];
      rewrite Hpost; cbn [snd table after]; [by left|by left|by left|].
    right. eexists. split; [reflexivity|].
    split; [|done].
    destruct (trimAndValidateText_valid _ _ Ht) as [Htrim Hlen].
    unfold stored_well. cbn [row_text row_username row_displayName].
    split; [done|]. split; [done|]. split; [done|].
    exists n0. split; [done|].
    destruct (trimAndValidateDisplayName_valid _ _ _ Hn) as [-> | (Hne & Htn & Hln)].
    - split; [done|by left].
    - split; [done|]. right. done. }
  split; [exact Hcases|].
  intros Hall. destruct Hcases as [-> | (row & -> & Hrow & _)]; [done|].
  apply Forall_app. split; [done|]. by constructor.
Qed.

(** ** The read-only routes *)

Lemma get_identity_run env request w u ides :
  ensureIdentity env request w = (Returned u, after w ides) ->
  get_identity env request w
  = (Returned {| status := 200; body := IdentityBody u |},
     after w (ides ++ [Send 200 (IdentityBody u)])).
Proof.
  intros Hid. unfold get_identity, bind. rewrite Hid.
  unfold after. cbn. by rewrite <- app_assoc.
Qed.

Lemma identity_effects_read_only (u : jsstring) (ides : list Effect) :
  ides = [] \/ ides = [SetCookie IDENTITY_COOKIE_NAME u identity_cookie_options] ->
  Forall read_only_effect ides.
Proof. intros [-> | ->]; repeat constructor. Qed.

(** X5. The read routes, as the framework runs them, never consult the
    rate limiter, never write to the table and never broadcast: after
    [GET /messages] and after [GET /identity] the limiter and the table
    are as before, whatever the request and whether or not the database
    answers, and the only effects are a cookie, the query, a log line and
    the reply.  [GET /identity] answers 200 with the resolved username. *)
Theorem read_routes_change_nothing env request w :
  (exists out es,
     serve (get_messages env request) w = (Returned out, after w es)
     /\ Forall read_only_effect es
     /\ emitted es = [])
  /\ (exists u ides,
        ensureIdentity env request w = (Returned u, after w ides)
        /\ serve (get_identity env request) w
           = (Returned {| status := 200; body := IdentityBody u |},
              after w (ides ++ [Send 200 (IdentityBody u)]))
        /\ Forall read_only_effect (ides ++ [Send 200 (IdentityBody u)])
        /\ emitted (ides ++ [Send 200 (IdentityBody u)]) = []).
Proof.
  destruct (ensureIdentity_result env request w) as (u & ides & Hid & _ & Hides).
  pose proof (identity_effects_read_only u ides Hides) as Hro.
  assert (Hem : emitted ides = []) by (by destruct Hides as [-> | ->]).
  split.
  - pose proof (get_messages_run env request w u ides Hid) as Hrun. cbv zeta in Hrun.
    unfold serve, try_catch. rewrite Hrun.
    destruct (db_error env) as [e|].
    + eexists _, _. split.
      { unfold errorHandler, log_error, reply_send, bind, tell, ret, after.
        cbn. rewrite <- !app_assoc. reflexivity. }
      split.
      * apply Forall_app. split; [done|]. repeat constructor.
      * unfold emitted. rewrite omap_app. fold (emitted ides). by rewrite Hem.
    + eexists _, _. split; [reflexivity|]. split.
      * apply Forall_app. split; [done|]. repeat constructor.
      * unfold emitted. rewrite omap_app. fold (emitted ides). by rewrite Hem.
  - exists u, ides. split; [done|].
    split.
    { unfold serve, try_catch. by rewrite (get_identity_run env request w u ides Hid). }
    split.
    + apply Forall_app. split; [done|]. repeat constructor.
    + unfold emitted. rewrite omap_app. fold (emitted ides). by rewrite Hem.
Qed.

End StoredRows.

(** ** A client that keeps its cookie keeps its name *)

Section StableIdentity.
Context {L : Type} {RL : RateLimiter L} {P : Platform}.
Implicit Types (env : Env) (request : Request) (w : World L).

Lemma ensureIdentity_carries env request w u :
  carries_identity request u -> ensureIdentity env request w = (Returned u, w).
Proof.
  intros Hu. destruct (ensureIdentity_run env request w) as [(u' & Hu' & E) | [Hno _]].
  - by rewrite (carries_identity_unique _ _ _ Hu Hu').
  - by destruct (Hno u).
Qed.

(** X6. Whatever cookie plug-in signs the identity cookie, as long as a
    signed non-empty value is a non-empty cookie that verifies to that
    value: the username a request was answered with is the username every
    later request of a client that kept the reply's cookies is answered
    with, on any route, with no new cookie set and no randomness drawn
    into it. *)
Theorem identity_is_stable (signCookie : jsstring -> jsstring) env request w :
  (forall v, v <> [] ->
     signCookie v <> []
     /\ valid (unsignCookie (signCookie v)) = true
     /\ value (unsignCookie (signCookie v)) = Some v) ->
  exists u ides,
    ensureIdentity env request w = (Returned u, after w ides)
    /\ forall env' next (w' : World L),
         ensureIdentity env' (following_request signCookie ides request next) w'
         = (Returned u, w').
Proof.
  intros Hsign.
  destruct (ensureIdentity_run env request w) as [(u & Hu & E) | (_ & E)].
  - exists u, []. split.
    { rewrite E. unfold after. rewrite app_nil_r. by destruct w. }
    intros env' next w'. apply ensureIdentity_carries.
    destruct Hu as (c & Hc & Hrest). exists c. split; [exact Hc|exact Hrest].
  - eexists _, _. split; [exact E|].
    intros env' next w'. apply ensureIdentity_carries.
    destruct (Hsign (generateUsername env) (generateUsername_nonempty env))
      as (Hne & Hvalid & Hvalue).
    exists (signCookie (generateUsername env)). split.
    { cbn. by rewrite lookup_insert_eq. }
    split; [done|]. split; [done|]. split; [done|].
    apply generateUsername_nonempty.
Qed.

End StableIdentity.

Lemma split_last_dot_none (s : jsstring) : 46 ∉ s -> split_last_dot s = None.
Proof.
  induction s as [|c s IH]; intros Hs; [done|].
  cbn [split_last_dot]. rewrite IH.
  - destruct (c =? 46) eqn:E; [|done].
    apply N.eqb_eq in E. subst. exfalso. apply Hs. apply list_elem_of_here.
  - intros Hin. apply Hs. by apply list_elem_of_further.
Qed.

Lemma split_last_dot_app (v sig : jsstring) :
  46 ∉ sig -> split_last_dot (v ++ 46 :: sig) = Some (v, sig).
Proof.
  intros Hsig. induction v as [|c v IH]; cbn [app split_last_dot].
  - by rewrite (split_last_dot_none sig Hsig).
  - by rewrite IH.
Qed.

Lemma example_signature_no_dot (v : jsstring) : 46 ∉ example_signature v.
Proof.
  unfold example_signature.
  destruct (digits_spec (fold_left (fun acc c => (31 * acc + c) mod 65521) v 4099))
    as (_ & Hall & _).
  intros Hin. rewrite Forall_forall in Hall. specialize (Hall 46 Hin). done.
Qed.

(** The example signer verifies what it signed. *)
Lemma example_sign_verifies (v : jsstring) :
  v <> [] ->
  example_sign v <> []
  /\ valid (example_unsign (example_sign v)) = true
  /\ value (example_unsign (example_sign v)) = Some v.
Proof.
  intros Hv. unfold example_sign, example_unsign.
  change (lit ".") with [46]. cbn [app].
  rewrite (split_last_dot_app v _ (example_signature_no_dot v)).
  rewrite decide_True by done. cbn.
  split; [|done]. by destruct v.
Qed.

Lemma identity_is_stable_witness :
  (forall v, v <> [] ->
     example_sign v <> []
     /\ valid (unsignCookie (Platform := example_platform) (example_sign v)) = true
     /\ value (unsignCookie (Platform := example_platform) (example_sign v)) = Some v)
  /\ exists u ides,
       ensureIdentity (P := example_platform) example_env
         (example_request JUndefined) example_world
       = (Returned u, after example_world ides)
       /\ forall env' next (w' : World FixedWindow),
            ensureIdentity (P := example_platform) env'
              (following_request example_sign ides (example_request JUndefined) next) w'
            = (Returned u, w').
Proof.
  split; [exact example_sign_verifies|].
  apply (identity_is_stable (P := example_platform) example_sign example_env
           (example_request JUndefined) example_world).
  exact example_sign_verifies.
Defined.

(** ** A posted message in the history *)

Lemma newest_row_first (rows : list MessageRow) (row : MessageRow) :
  (forall r, r ∈ rows -> (row_createdAt r < row_createdAt row)%Z) ->
  exists rest, merge_sort newer_first (rows ++ [row]) = row :: rest.
Proof.
  intros Hnew.
  pose proof (StronglySorted_merge_sort newer_first (rows ++ [row])) as Hsorted.
  pose proof (merge_sort_Permutation newer_first (rows ++ [row])) as Hperm.
  destruct (merge_sort newer_first (rows ++ [row])) as [|h rest] eqn:E.
  { apply Permutation_length in Hperm. rewrite length_app in Hperm.
    cbn in Hperm. lia. }
  exists rest. f_equal.
  assert (Hh : h ∈ rows ++ [row]) by (rewrite <- Hperm; apply list_elem_of_here).
  assert (Hrow : row ∈ h :: rest).
  { rewrite Hperm. apply elem_of_app. right. apply list_elem_of_here. }
  apply elem_of_app in Hh as [Hh | Hh].
  - exfalso. specialize (Hnew h Hh).
    apply elem_of_cons in Hrow as [-> | Hrow]; [lia|].
    apply StronglySorted_inv in Hsorted as [_ Hall].
    rewrite Forall_forall in Hall. specialize (Hall row Hrow).
    unfold newer_first in Hall. lia.
  - by apply list_elem_of_singleton in Hh.
Qed.

Section PostThenGet.
Context {L : Type} {RL : RateLimiter L} {P : Platform}.
Implicit Types (env : Env) (request : Request) (w : World L).

(** X7. A message answered with 201 is the last (most recent) message of
    the next history read, whatever its [limit], provided the database
    gave it a timestamp later than that of every row already there and
    answers the read. *)
Theorem posted_message_is_latest env request w dto w1 env' request' :
  post_messages env request w
  = (Returned {| status := 201; body := MessageBody dto |}, w1) ->
  (forall r, r ∈ table w -> (row_createdAt r < db_now env)%Z) ->
  db_error env' = None ->
  exists ms w2,
    get_messages env' request' w1
    = (Returned {| status := 200; body := MessagesBody ms |}, w2)
    /\ last ms = Some dto.
Proof.
  intros Hpost Hnew Hdb.
  destruct (post_messages_paths env request w)
    as (u & ides & Hid & Hides & Hpaths).
  destruct Hpaths as [(m0 & Hv & Hp)
                     |[(t0 & n0 & rl & Ht & Hn & Hc & Hp)
                     |[(t0 & n0 & rl & e0 & Ht & Hn & Hc & He & Hp)
                      |(t0 & n0 & rl & Ht & Hn & Hc & He & Hp)]]];
    rewrite Hp in Hpost; try (by injection Hpost).
  injection Hpost as <- <-.
  set (row := {| row_id := uuid env; row_text := t0; row_username := u;
                 row_displayName := Some n0; row_createdAt := db_now env |}) in *.
  set (w1 := {| rateLimiter := rl; table := table w ++ [row]; trace := _ |}).
  destruct (ensureIdentity_returns env' request' w1) as (u' & ides' & Hid' & _).
  pose proof (get_messages_run env' request' w1 u' ides' Hid') as Hrun.
  cbv zeta in Hrun. rewrite Hdb in Hrun.
  eexists _, _. split; [exact Hrun|].
  destruct (newest_row_first (table w) row Hnew) as [rest Hsorted].
  change (table w1) with (table w ++ [row]). rewrite Hsorted.
  pose proof (history_limit_range (query_limit request')) as Hrange.
  destruct (Z.to_nat (history_limit (query_limit request'))) as [|k] eqn:Ek; [lia|].
  cbn [firstn rev]. rewrite fmap_app. cbn [fmap list_fmap].
  by rewrite last_snoc.
Qed.

End PostThenGet.

Lemma posted_message_is_latest_witness :
  exists ms w2,
    get_messages (P := example_platform) example_env (example_request JNull)
      (post_messages (P := example_platform) example_env
         (example_request (JObject [Prop_ (lit "text") (JString (lit "hello"))]))
         example_world_with_history).2
    = (Returned {| status := 200; body := MessagesBody ms |}, w2)
    /\ last ms
       = Some {| id := lit "id-1"; text := lit "hello"; username := lit "Calm-Fox-0001";
                 displayName := lit "Calm-Fox-0001"; createdAt := lit "5000" |}.
Proof.
  apply (posted_message_is_latest (P := example_platform) example_env
           (example_request (JObject [Prop_ (lit "text") (JString (lit "hello"))]))
           example_world_with_history).
  - vm_compute. reflexivity.
  - intros r Hr. apply list_elem_of_singleton in Hr as ->. vm_compute. reflexivity.
  - reflexivity.
Defined.

(** ** Allowed origins *)

Lemma split_on_cons (separator c : N) (s : jsstring) :
  exists piece pieces,
    split_on separator s = piece :: pieces
    /\ split_on separator (c :: s)
       = if c =? separator then [] :: piece :: pieces else (c :: piece) :: pieces.
Proof.
  assert (Hne : forall s', exists piece pieces, split_on separator s' = piece :: pieces).
  { induction s' as [|d s' (piece & pieces & IH)]; [by eexists _, _|].
    cbn [split_on]. rewrite IH. destruct (d =? separator); by eexists _, _. }
  destruct (Hne s) as (piece & pieces & E). exists piece, pieces. split; [done|].
  cbn [split_on]. by rewrite E.
Qed.

Lemma split_on_pieces (separator : N) (s : jsstring) :
  Forall (fun piece => separator ∉ piece) (split_on separator s).
Proof.
  induction s as [|c s IH].
  - repeat constructor. by intros ?%elem_of_nil.
  - destruct (split_on_cons separator c s) as (piece & pieces & E & ->).
    rewrite E in IH. apply Forall_cons in IH as [Hp Hps].
    destruct (c =? separator) eqn:Ec.
    + repeat constructor; try done. by intros ?%elem_of_nil.
    + constructor; [|done]. apply N.eqb_neq in Ec.
      intros [-> | Hin]%elem_of_cons; done.
Qed.

Lemma split_on_free (separator : N) (piece : jsstring) :
  separator ∉ piece -> split_on separator piece = [piece].
Proof.
  induction piece as [|c piece IH]; intros Hp; [done|].
  cbn [split_on]. rewrite IH.
  - destruct (c =? separator) eqn:Ec; [|done].
    apply N.eqb_eq in Ec. subst. exfalso. apply Hp. apply list_elem_of_here.
  - intros Hin. apply Hp. by apply list_elem_of_further.
Qed.

Lemma split_on_app (separator : N) (piece rest : jsstring) :
  separator ∉ piece ->
  split_on separator (piece ++ separator :: rest) = piece :: split_on separator rest.
Proof.
  induction piece as [|c piece IH]; intros Hp.
  - cbn [app split_on]. by rewrite N.eqb_refl.
  - cbn [app split_on]. rewrite IH.
    + destruct (c =? separator) eqn:Ec; [|done].
      apply N.eqb_eq in Ec. subst. exfalso. apply Hp. apply list_elem_of_here.
    + intros Hin. apply Hp. by apply list_elem_of_further.
Qed.

(** Splitting what was joined gives the pieces back. *)
Lemma split_on_join (separator : N) (pieces : list jsstring) :
  pieces <> [] ->
  Forall (fun piece => separator ∉ piece) pieces ->
  split_on separator (join_with [separator] pieces) = pieces.
Proof.
  induction pieces as [|piece pieces IH]; intros Hne Hall; [done|].
  apply Forall_cons in Hall as [Hp Hps].
  destruct pieces as [|next pieces].
  - cbn [join_with]. by apply split_on_free.
  - cbn [join_with]. cbn [app]. rewrite split_on_app by done.
    f_equal. by apply IH.
Qed.

Lemma trimStart_elem (c : N) (s : jsstring) : c ∈ trimStart s -> c ∈ s.
Proof.
  induction s as [|d s IH]; cbn; [done|].
  destruct (isTrimmable d); [|done]. intros Hc. apply list_elem_of_further. by apply IH.
Qed.

Lemma trim_elem (c : N) (s : jsstring) : c ∈ trim s -> c ∈ s.
Proof.
  unfold trim, trimEnd. intros Hc.
  apply trimStart_elem.
  apply list_elem_of_In, in_rev, list_elem_of_In.
  apply trimStart_elem.
  by apply list_elem_of_In, in_rev, list_elem_of_In.
Qed.

Lemma allowedOrigins_elem (config origin : jsstring) :
  origin ∈ allowedOrigins config ->
  origin <> [] /\ trim origin = origin /\ 44 ∉ origin.
Proof.
  unfold allowedOrigins. intros [Hne Hin]%list_elem_of_filter.
  apply list_elem_of_fmap in Hin as (piece & -> & Hpiece).
  split; [done|]. split; [apply trim_idem|].
  pose proof (split_on_pieces 44 config) as Hall.
  rewrite Forall_forall in Hall. specialize (Hall piece Hpiece).
  intros Hc. apply Hall. by apply trim_elem.
Qed.

Lemma cors_origin_allowed (allowed : list jsstring) (origin : jsstring) :
  cors_origin allowed (Some origin) = OriginAllowed <-> origin = [] \/ origin ∈ allowed.
Proof.
  unfold cors_origin. destruct origin as [|c origin]; cbn [length Nat.eqb orb].
  - split; [by left|done].
  - destruct (bool_decide (c :: origin ∈ allowed)) eqn:E.
    + apply bool_decide_eq_true in E. split; [by right|done].
    + apply bool_decide_eq_false in E. split; [done|]. by intros [|].
Qed.

(** X8. Whatever [CORS_ORIGIN] is configured, every allowed origin is
    non-empty, free of surrounding white space and free of commas.  A
    request without an [Origin], or with an empty one, is always let
    through; any other is let through only if it is one of the allowed
    origins, so never when it carries surrounding white space or a
    comma. *)
Theorem allowedOrigins_entries (config : jsstring) :
  Forall (fun origin => origin <> [] /\ trim origin = origin /\ 44 ∉ origin)
    (allowedOrigins config)
  /\ cors_origin (allowedOrigins config) None = OriginAllowed
  /\ cors_origin (allowedOrigins config) (Some []) = OriginAllowed
  /\ forall origin,
       cors_origin (allowedOrigins config) (Some origin) = OriginAllowed ->
       origin = []
       \/ (origin ∈ allowedOrigins config /\ trim origin = origin /\ 44 ∉ origin).
Proof.
  split; [|split; [done|split; [done|]]].
  - apply Forall_forall. intros origin. apply allowedOrigins_elem.
  - intros origin [-> | Hin]%cors_origin_allowed; [by left|].
    right. split; [done|]. by apply allowedOrigins_elem in Hin as (_ & ? & ?).
Qed.

(** X9. A [CORS_ORIGIN] written as origins joined by commas allows exactly
    those origins, in that order, when each of them is non-empty, free of
    surrounding white space and free of commas; a non-empty [Origin] is
    then let through if and only if it is one of them. *)
Theorem allowedOrigins_of_joined (origins : list jsstring) :
  Forall (fun origin => origin <> [] /\ trim origin = origin /\ 44 ∉ origin) origins ->
  allowedOrigins (join_with (lit ",") origins) = origins
  /\ forall origin, origin <> [] ->
       (cors_origin (allowedOrigins (join_with (lit ",") origins)) (Some origin)
        = OriginAllowed
        <-> origin ∈ origins).
Proof.
  intros Hall.
  assert (E : allowedOrigins (join_with (lit ",") origins) = origins).
  { unfold allowedOrigins. change (lit ",") with [44].
    destruct origins as [|o origins]; [done|].
    rewrite split_on_join; [|done|].
    2:{ eapply Forall_impl; [exact Hall|]. by intros x (_ & _ & ?). }
    induction Hall as [|x l (Hne & Htrim & _) _ IH]; [done|].
    cbn [fmap list_fmap]. rewrite filter_cons_True by (by rewrite Htrim).
    rewrite Htrim. f_equal. exact IH. }
  split; [exact E|].
  intros origin Hne. rewrite E, cors_origin_allowed. split; [by intros [|]|by right].
Qed.

Lemma allowedOrigins_of_joined_witness :
  Forall (fun origin => origin <> [] /\ trim origin = origin /\ 44 ∉ origin)
    [lit "http://localhost:5173"; lit "https://chat.example"]
  /\ allowedOrigins (lit "http://localhost:5173,https://chat.example")
     = [lit "http://localhost:5173"; lit "https://chat.example"].
Proof.
  assert (Hall : Forall (fun origin => origin <> [] /\ trim origin = origin /\ 44 ∉ origin)
                   [lit "http://localhost:5173"; lit "https://chat.example"]).
  { repeat constructor; try done; by apply not_elem_of_by_forallb. }
  split; [exact Hall|].
  exact (proj1 (allowedOrigins_of_joined
                  [lit "http://localhost:5173"; lit "https://chat.example"] Hall)).
Defined.

(* ===================================================================== *)
(** * Properties of the chat client *)
(* ===================================================================== *)

(** ** Avatars *)

Lemma avatar_hash_from (s : jsstring) : forall h0 : N,
  h0 < 360 -> fold_left (fun hash c => (hash * 31 + c) mod 360) s h0 < 360.
Proof.
  induction s as [|c s IH]; intros h0 Hh; [done|].
  cbn [fold_left]. apply IH. by apply N.mod_upper_bound.
Qed.

(** X10. The hue [avatarStyle] computes for a username is a whole number
    from 0 to 359, and the style is [hsl(<hue> 70% 46%)] with that hue in
    decimal. *)
Theorem avatarStyle_hue (rawUsername : jsstring) :
  Frontend.avatar_hash rawUsername < 360
  /\ Frontend.avatarStyle rawUsername
     = lit "hsl(" ++ digits (Frontend.avatar_hash rawUsername) ++ lit " 70% 46%)"
  /\ (1 <= length (digits (Frontend.avatar_hash rawUsername)) <= 3)%nat.
Proof.
  assert (Hh : Frontend.avatar_hash rawUsername < 360)
    by (by apply avatar_hash_from).
  split; [done|]. split.
  - unfold Frontend.avatarStyle, Number_toString.
    replace (Z.of_N (Frontend.avatar_hash rawUsername) <? 0)%Z with false
      by (symmetry; apply Z.ltb_ge; lia).
    by rewrite N2Z.id.
  - assert (Hall : forallb (fun k => (1 <=? length (digits (N.of_nat k)))%nat
                                     && (length (digits (N.of_nat k)) <=? 3)%nat)
                     (seq 0 360) = true) by (vm_compute; reflexivity).
    rewrite forallb_forall in Hall.
    specialize (Hall (N.to_nat (Frontend.avatar_hash rawUsername))).
    rewrite N2Nat.id in Hall.
    destruct (andb_prop _ _ (Hall ltac:(apply in_seq; lia))) as [H1 H2].
    apply Nat.leb_le in H1, H2. done.
Qed.

Lemma upper_alphanumeric (c : N) :
  Frontend.isAlphanumeric c = true ->
  ((65 <=? Frontend.upper c) && (Frontend.upper c <=? 90))
  || ((48 <=? Frontend.upper c) && (Frontend.upper c <=? 57)) = true.
Proof.
  unfold Frontend.isAlphanumeric, Frontend.upper. intros H.
  destruct ((97 <=? c) && (c <=? 122)) eqn:Elow.
  - apply andb_prop in Elow as [H1 H2]. apply N.leb_le in H1, H2.
    apply orb_true_intro. left. apply andb_true_intro.
    split; apply N.leb_le; lia.
  - cbn [orb] in H. apply orb_prop in H as [H | H].
    + by rewrite H.
    + rewrite H. apply orb_true_r.
Qed.

(** X11. The initials shown in an avatar are one or two code units, each
    an upper-case ASCII letter or a digit: the first two letters or digits
    of the username, letters in upper case, or ["AN"] when the username has
    none. *)
Theorem getAvatarInitials_shape (rawUsername : jsstring) :
  (1 <= length (Frontend.getAvatarInitials rawUsername) <= 2)%nat
  /\ Forall (fun c => ((65 <=? c) && (c <=? 90)) || ((48 <=? c) && (c <=? 57)) = true)
       (Frontend.getAvatarInitials rawUsername)
  /\ (List.filter Frontend.isAlphanumeric rawUsername = [] ->
      Frontend.getAvatarInitials rawUsername = lit "AN")
  /\ (List.filter Frontend.isAlphanumeric rawUsername <> [] ->
      Frontend.getAvatarInitials rawUsername
      = Frontend.upper <$> firstn 2 (List.filter Frontend.isAlphanumeric rawUsername)).
Proof.
  unfold Frontend.getAvatarInitials, Frontend.slice0. cbv zeta.
  assert (Hall : Forall (fun c => Frontend.isAlphanumeric c = true)
                   (List.filter Frontend.isAlphanumeric rawUsername)).
  { apply Forall_forall. intros c Hc. apply list_elem_of_In in Hc.
    by apply filter_In in Hc as [_ ?]. }
  destruct (List.filter Frontend.isAlphanumeric rawUsername) as [|a [|b rest]].
  - cbn. repeat split; try done; try lia. repeat constructor.
  - cbn. apply Forall_cons in Hall as [Ha _].
    repeat split; try done; try lia.
    constructor; [by apply upper_alphanumeric|constructor].
  - cbn [fmap list_fmap firstn Frontend.or_else length].
    apply Forall_cons in Hall as [Ha Hall]. apply Forall_cons in Hall as [Hb _].
    repeat split; try done; try lia.
    repeat constructor; by apply upper_alphanumeric.
Qed.

(** ** The client's identity *)

Lemma slice0_length (s : jsstring) (n : nat) : (length (Frontend.slice0 s n) <= n)%nat.
Proof. unfold Frontend.slice0. rewrite length_take. lia. Qed.

Lemma slice0_nonempty (s : jsstring) (n : nat) :
  s <> [] -> (0 < n)%nat -> Frontend.slice0 s n <> [].
Proof. destruct s, n; cbn; intros; try done; lia. Qed.

Lemma or_else_nonempty (a b : jsstring) : b <> [] -> Frontend.or_else a b <> [].
Proof. by destruct a. Qed.

Lemma or_else_length (a b : jsstring) (n : nat) :
  (length a <= n)%nat -> (length b <= n)%nat -> (length (Frontend.or_else a b) <= n)%nat.
Proof. by destruct a. Qed.

Lemma trim_length (s : jsstring) : (length (trim s) <= length s)%nat.
Proof.
  unfold trim, trimEnd. rewrite length_rev.
  etrans; [apply trimStart_length|]. rewrite length_rev. apply trimStart_length.
Qed.

(** X12. After [loadIdentity], whatever the browser's storage held (nothing,
    blanks, over-long values): the username and the display name are both
    non-empty and at most 64 code units long, the display name is what the
    storage now holds under its key, and a username is stored.  A stored
    username that is not blank is kept (trimmed, cut to 64) and no new one
    is generated. *)
Theorem loadIdentity_establishes (env : Env) (st : Frontend.State) :
  let st' := Frontend.loadIdentity env st in
  Frontend.username st' <> []
  /\ (length (Frontend.username st') <= 64)%nat
  /\ Frontend.displayName st' <> []
  /\ (length (Frontend.displayName st') <= 64)%nat
  /\ Frontend.localStorage st' !! Frontend.DISPLAY_NAME_STORAGE_KEY
     = Some (Frontend.displayName st')
  /\ is_Some (Frontend.localStorage st' !! Frontend.USERNAME_STORAGE_KEY)
  /\ (forall saved, Frontend.localStorage st !! Frontend.USERNAME_STORAGE_KEY = Some saved ->
        trim saved <> [] ->
        Frontend.username st' = firstn 64 (trim saved)
        /\ Frontend.localStorage st' !! Frontend.USERNAME_STORAGE_KEY = Some saved).
Proof.
  cbv zeta. unfold Frontend.loadIdentity. cbv zeta.
  assert (Hkeys : Frontend.DISPLAY_NAME_STORAGE_KEY <> Frontend.USERNAME_STORAGE_KEY)
    by (vm_compute; discriminate).
  pose proof (generateUsername_length env) as Hlen.
  pose proof (generateUsername_nonempty env) as Hfresh.
  set (savedDisplayName :=
         default [] (trim <$> Frontend.localStorage st !! Frontend.DISPLAY_NAME_STORAGE_KEY)).
  destruct (Frontend.localStorage st !! Frontend.USERNAME_STORAGE_KEY) as [saved|] eqn:Es;
    cbn [fmap option_fmap option_map].
  - destruct (trim saved) as [|c rest] eqn:Et;
      cbn [Frontend.username Frontend.displayName Frontend.localStorage].
    + rewrite lookup_insert_eq, lookup_insert_ne, lookup_insert_eq by done.
      split; [done|]. split; [unfold Frontend.generateUsername; lia|].
      split; [apply slice0_nonempty; [by apply or_else_nonempty|lia]|].
      split; [apply slice0_length|]. split; [done|]. split; [done|].
      intros saved' [= <-] Hne. by rewrite Et in Hne.
    + rewrite lookup_insert_eq, lookup_insert_ne, Es by done.
      split; [by apply slice0_nonempty; [|lia]|].
      split; [apply slice0_length|].
      split.
      { apply slice0_nonempty; [|lia]. apply or_else_nonempty.
        by apply slice0_nonempty; [|lia]. }
      split; [apply slice0_length|]. split; [done|]. split; [done|].
      intros saved' [= <-] _. by rewrite Et.
  - cbn [Frontend.username Frontend.displayName Frontend.localStorage].
    rewrite lookup_insert_eq, lookup_insert_ne, lookup_insert_eq by done.
    split; [done|]. split; [unfold Frontend.generateUsername; lia|].
    split; [apply slice0_nonempty; [by apply or_else_nonempty|lia]|].
    split; [apply slice0_length|]. split; [done|]. split; [done|].
    intros saved' Hs. discriminate.
Qed.

(** X13. [saveDisplayName] never leaves an empty or over-long display name
    behind: for a username that is non-empty and at most 64 code units
    long (as [loadIdentity] leaves it), whatever was typed, the display
    name afterwards is non-empty, at most 64 code units long and stored; a
    blank entry falls back to the username; and the server's display-name
    validator accepts the result. *)
Theorem saveDisplayName_keeps (st : Frontend.State) :
  Frontend.username st <> [] ->
  (length (Frontend.username st) <= 64)%nat ->
  let st' := Frontend.saveDisplayName st in
  Frontend.displayName st' <> []
  /\ (length (Frontend.displayName st') <= 64)%nat
  /\ Frontend.username st' = Frontend.username st
  /\ Frontend.localStorage st' !! Frontend.DISPLAY_NAME_STORAGE_KEY
     = Some (Frontend.displayName st')
  /\ (trim (Frontend.displayName st) = [] ->
      Frontend.displayName st' = Frontend.username st)
  /\ forall fallback,
       exists d,
         trimAndValidateDisplayName (JString (Frontend.displayName st')) fallback = Valid d.
Proof.
  intros Hu Hlen. cbv zeta. unfold Frontend.saveDisplayName. cbv zeta.
  cbn [Frontend.username Frontend.displayName Frontend.localStorage].
  rewrite lookup_insert_eq.
  set (name := Frontend.or_else (Frontend.slice0 (trim (Frontend.displayName st)) 64)
                 (Frontend.username st)).
  assert (Hname : (length name <= 64)%nat)
    by (apply or_else_length; [apply slice0_length|done]).
  split; [by apply or_else_nonempty|]. split; [done|]. split; [done|]. split; [done|].
  split.
  { intros Hblank. unfold name. by rewrite Hblank. }
  intros fallback. rewrite trimAndValidateDisplayName_string.
  pose proof (trim_length name).
  destruct (decide (trim name = [])); [by eexists|].
  rewrite decide_False by lia. by eexists.
Qed.

Lemma saveDisplayName_keeps_witness :
  Frontend.username example_client <> []
  /\ (length (Frontend.username example_client) <= 64)%nat
  /\ Frontend.displayName (Frontend.saveDisplayName example_client) = lit "Calm-Fox-0001".
Proof.
  split; [done|]. split; [cbn; lia|].
  apply (saveDisplayName_keeps example_client); [done|cbn; lia|reflexivity].
Defined.

(** ** Sending a message *)

Lemma message_body_text (t u d : jsstring) :
  optional_member (Frontend.message_body t u d) (lit "text") = JString t.
Proof. reflexivity. Qed.

Lemma message_body_displayName (t u d : jsstring) :
  optional_member (Frontend.message_body t u d) (lit "displayName") = JString d.
Proof. reflexivity. Qed.

Lemma sendMessage_posted (server : JSValue -> Frontend.FetchOutcome) (st : Frontend.State) :
  (Frontend.sendMessage server st).2
  = if decide (trim (Frontend.messageText st) = []) then None
    else if decide (1000 < length (trim (Frontend.messageText st)))%nat then None
         else Some (Frontend.message_body (trim (Frontend.messageText st))
                      (Frontend.username st) (Frontend.displayName st)).
Proof.
  unfold Frontend.sendMessage. cbv zeta.
  destruct (length (trim (Frontend.messageText st)) =? 0)%nat eqn:E0.
  - apply length_zero_nil in E0. by rewrite decide_True.
  - rewrite decide_False.
    2:{ intros E. apply length_zero_nil in E. congruence. }
    unfold Frontend.MAX_TEXT_LENGTH.
    destruct (1000 <? length (trim (Frontend.messageText st)))%nat eqn:E1.
    + apply Nat.ltb_lt in E1. by rewrite decide_True.
    + apply Nat.ltb_ge in E1. rewrite decide_False by lia.
      by destruct (server _).
Qed.

(** X14. The composer and the server agree on the text: [sendMessage] posts
    nothing exactly when the server's text validator would refuse what was
    typed, and otherwise posts the trimmed text, which the server's
    validator returns unchanged.  When nothing is posted the typed text is
    kept and an error is shown; after a reply the text is cleared exactly
    when the reply was ok, and sending is over. *)
Theorem sendMessage_agrees_with_server (server : JSValue -> Frontend.FetchOutcome)
    (st : Frontend.State) :
  ((Frontend.sendMessage server st).2 = None
   <-> exists m, trimAndValidateText (JString (Frontend.messageText st)) = Invalid m)
  /\ ((Frontend.sendMessage server st).2 = None ->
      Frontend.messageText (Frontend.sendMessage server st).1 = Frontend.messageText st
      /\ Frontend.errorMessage (Frontend.sendMessage server st).1 <> [])
  /\ (forall posted, (Frontend.sendMessage server st).2 = Some posted ->
        posted = Frontend.message_body (trim (Frontend.messageText st))
                   (Frontend.username st) (Frontend.displayName st)
        /\ trimAndValidateText (optional_member posted (lit "text"))
           = Valid (trim (Frontend.messageText st))
        /\ Frontend.isSending (Frontend.sendMessage server st).1 = false
        /\ (server posted = Frontend.ReplyOk ->
            Frontend.messageText (Frontend.sendMessage server st).1 = []
            /\ Frontend.errorMessage (Frontend.sendMessage server st).1 = [])
        /\ (server posted <> Frontend.ReplyOk ->
            Frontend.messageText (Frontend.sendMessage server st).1
            = Frontend.messageText st)).
Proof.
  pose proof (sendMessage_posted server st) as Hposted.
  rewrite trimAndValidateText_string.
  unfold Frontend.sendMessage in *. cbv zeta in *.
  destruct (length (trim (Frontend.messageText st)) =? 0)%nat eqn:E0.
  { apply length_zero_nil in E0. rewrite decide_True by done.
    cbn [fst snd Frontend.messageText Frontend.errorMessage].
    split; [split; [by eexists|done]|]. split; [done|]. intros posted H. discriminate. }
  assert (Hne : trim (Frontend.messageText st) <> []).
  { intros E. apply length_zero_nil in E. congruence. }
  rewrite decide_False in * by done.
  unfold Frontend.MAX_TEXT_LENGTH in *.
  destruct (1000 <? length (trim (Frontend.messageText st)))%nat eqn:E1.
  { apply Nat.ltb_lt in E1. rewrite decide_True by done.
    cbn [fst snd Frontend.messageText Frontend.errorMessage].
    split; [split; [by eexists|done]|]. split; [done|]. intros posted H. discriminate. }
  apply Nat.ltb_ge in E1. rewrite decide_False in * by lia.
  set (body := Frontend.message_body _ _ _) in *.
  assert (Hvalid : trimAndValidateText (optional_member body (lit "text"))
                   = Valid (trim (Frontend.messageText st))).
  { unfold body. rewrite message_body_text, trimAndValidateText_string, trim_idem.
    rewrite decide_False by done. by rewrite decide_False by lia. }
  clear Hposted.
  destruct (server body) eqn:Es;
    cbn [fst snd Frontend.isSending Frontend.messageText Frontend.errorMessage].
  all: split; [split; [done|by intros [m Hm]]|].
  all: split; [done|].
  all: intros posted [= <-]; rewrite Es.
  all: split; [done|]; split; [done|]; split; [done|]; split; [done|done].
Qed.

Section SentMessages.
Context {L : Type} {RL : RateLimiter L} {P : Platform}.

(** X15. A message the composer posts is never answered 400 by
    [POST /messages], as long as the client's display name has at most 64
    code units (as [loadIdentity] and [saveDisplayName] leave it): the
    handler goes on to admission, and a 201 reply carries the trimmed
    text. *)
Theorem sent_message_passes_validation (server : JSValue -> Frontend.FetchOutcome)
    (st : Frontend.State) (posted : JSValue) (env : Env) (request : Request)
    (w : World L) :
  (Frontend.sendMessage server st).2 = Some posted ->
  (length (Frontend.displayName st) <= 64)%nat ->
  request_body request = posted ->
  exists resp w',
    post_messages env request w = (Returned resp, w')
    /\ status resp <> 400%nat
    /\ (status resp = 201%nat ->
        exists dto, body resp = MessageBody dto
                    /\ text dto = trim (Frontend.messageText st)).
Proof.
  intros Hposted Hlen Hbody.
  rewrite sendMessage_posted in Hposted.
  destruct (decide (trim (Frontend.messageText st) = [])) as [|Hne]; [done|].
  destruct (decide (1000 < length (trim (Frontend.messageText st)))%nat) as [|Hle];
    [done|].
  injection Hposted as <-.
  assert (Ht : trimAndValidateText (optional_member (request_body request) (lit "text"))
               = Valid (trim (Frontend.messageText st))).
  { rewrite Hbody, message_body_text, trimAndValidateText_string, trim_idem.
    rewrite decide_False by done. by rewrite decide_False by lia. }
  assert (Hn : forall u, exists d,
             trimAndValidateDisplayName
               (optional_member (request_body request) (lit "displayName")) u = Valid d).
  { intros u. rewrite Hbody, message_body_displayName, trimAndValidateDisplayName_string.
    pose proof (trim_length (Frontend.displayName st)).
    destruct (decide (trim (Frontend.displayName st) = [])); [by eexists|].
    rewrite decide_False by lia. by eexists. }
  destruct (post_messages_paths env request w)
    as (u & ides & Hid & Hides & Hpaths).
  destruct (Hn u) as [d Hd].
  destruct Hpaths as [(m0 & Hv & Hp)
                     |[(t0 & n0 & rl & Ht' & Hn' & Hc & Hp)
                     |[(t0 & n0 & rl & e0 & Ht' & Hn' & Hc & He & Hp)
                      |(t0 & n0 & rl & Ht' & Hn' & Hc & He & Hp)]]].
  - exfalso. clear Hp. destruct Hv as [Hv | [_ Hv]]; congruence.
  - eexists _, _. split; [exact Hp|]. cbn [status]. split; [lia|]. intros; lia.
  - eexists _, _. split; [exact Hp|]. cbn [status]. split; [lia|]. intros; lia.
  - eexists _, _. split; [exact Hp|]. cbn [status body]. split; [lia|].
    intros _. eexists. split; [reflexivity|]. cbn. congruence.
Qed.

End SentMessages.

Lemma sent_message_passes_validation_witness :
  exists resp w',
    post_messages (P := example_platform) example_env
      (example_request
         (Frontend.message_body (lit "hello") (lit "Calm-Fox-0001") (lit "   ")))
      example_world
    = (Returned resp, w')
    /\ status resp <> 400%nat
    /\ (status resp = 201%nat ->
        exists dto, body resp = MessageBody dto
                    /\ text dto = trim (Frontend.messageText example_client)).
Proof.
  apply (sent_message_passes_validation (P := example_platform)
           (fun _ => Frontend.ReplyOk) example_client
           (Frontend.message_body (lit "hello") (lit "Calm-Fox-0001") (lit "   "))
           example_env _ example_world).
  - vm_compute. reflexivity.
  - cbn. lia.
  - reflexivity.
Defined.

(** ** Loading the history with retries *)

Section Retry.
Variables (load : nat -> Frontend.LoadOutcome) (attempts delayMs : Z).

(** The loop from iteration [i] with [n] iterations to go, when these are
    the last [n] of the [attempts]: it stops at the first iteration that
    loads, having slept after every failure before it; or every iteration
    fails, it has slept after each failure but the last, and it throws the
    last error. *)
Lemma retry_loop_spec (n : nat) : forall (i : nat) (lastError : option jsstring),
  Z.of_nat (i + n) = attempts ->
  (exists k,
     (i <= k < i + n)%nat
     /\ load k = Frontend.Loaded
     /\ (forall j, (i <= j < k)%nat -> load j <> Frontend.Loaded)
     /\ (Frontend.retry_loop load attempts delayMs n i lastError).1 = Frontend.Done
     /\ Frontend.calls (Frontend.retry_loop load attempts delayMs n i lastError).2
        = S (k - i)
     /\ Frontend.slept (Frontend.retry_loop load attempts delayMs n i lastError).2
        = (Z.of_nat (k - i) * delayMs)%Z)
  \/ ((forall j, (i <= j < i + n)%nat -> load j <> Frontend.Loaded)
      /\ Frontend.calls (Frontend.retry_loop load attempts delayMs n i lastError).2 = n
      /\ Frontend.slept (Frontend.retry_loop load attempts delayMs n i lastError).2
         = (Z.of_nat (n - 1) * delayMs)%Z
      /\ match n with
         | O => (Frontend.retry_loop load attempts delayMs n i lastError).1
                = Frontend.Threw lastError
         | S n' => exists e, load (i + n')%nat = Frontend.LoadFailed e
                             /\ (Frontend.retry_loop load attempts delayMs n i lastError).1
                                = Frontend.Threw (Some e)
         end).
Proof.
  induction n as [|n IH]; intros i lastError Hi.
  - right. cbn. split; [intros; lia|]. repeat split; try done.
  - cbn [Frontend.retry_loop].
    destruct (load i) as [|e] eqn:Ei.
    + left. exists i. cbn. rewrite Nat.sub_diag.
      repeat split; try done; try lia.
    + destruct (Frontend.retry_loop load attempts delayMs n (S i) (Some e))
        as [result actions] eqn:Er.
      specialize (IH (S i) (Some e) ltac:(lia)). rewrite Er in IH.
      cbn [fst snd] in *.
      assert (Hfail : forall j, (i <= j)%nat -> (forall j', (S i <= j' < j)%nat ->
                        load j' <> Frontend.Loaded) ->
                        forall j', (i <= j' < j)%nat -> load j' <> Frontend.Loaded).
      { intros j _ Hrest j' Hj'. destruct (decide (j' = i)) as [->|]; [congruence|].
        apply Hrest. lia. }
      destruct IH as [(k & Hk & Hload & Hbefore & -> & Hcalls & Hslept)
                     |(Hall & Hcalls & Hslept & Hlast)].
      * left. exists k. split; [lia|]. split; [done|].
        split; [by apply (Hfail k); [lia|]|]. split; [done|].
        replace (Z.of_nat i <? attempts - 1)%Z with true
          by (symmetry; apply Z.ltb_lt; lia).
        cbn [app Frontend.calls Frontend.slept List.filter length fold_right].
        fold (Frontend.calls actions). fold (Frontend.slept actions).
        rewrite Hcalls, Hslept. split; [lia|].
        replace (k - i)%nat with (S (k - S i)) by lia.
        rewrite Nat2Z.inj_succ. lia.
      * right. split; [by apply (Hfail (i + S n)%nat); [lia|intros; apply Hall; lia]|].
        destruct n as [|n'].
        -- replace (Z.of_nat i <? attempts - 1)%Z with false
             by (symmetry; apply Z.ltb_ge; lia).
           cbn [app Frontend.calls Frontend.slept List.filter length fold_right].
           fold (Frontend.calls actions). fold (Frontend.slept actions).
           rewrite Hcalls, Hslept. repeat split; try lia.
           exists e. rewrite Nat.add_0_r. split; [done|]. by rewrite Hlast.
        -- replace (Z.of_nat i <? attempts - 1)%Z with true
             by (symmetry; apply Z.ltb_lt; lia).
           cbn [app Frontend.calls Frontend.slept List.filter length fold_right].
           fold (Frontend.calls actions). fold (Frontend.slept actions).
           rewrite Hcalls, Hslept. split; [lia|].
           split.
           { replace (S (S n') - 1)%nat with (S (S n' - 1)) by lia.
             rewrite Nat2Z.inj_succ. lia. }
           destruct Hlast as (e' & He' & ->). exists e'. split; [|done].
           rewrite <- He'. f_equal. lia.
Qed.

(** X16. [loadMessagesWithRetry] calls [loadMessages] until one call
    succeeds, at most [attempts] times.  If call number [k] (from 0) is
    the first to succeed among the first [attempts], it returns after
    [k + 1] calls and [k] sleeps of [delayMs]; otherwise it makes exactly
    [attempts] calls, sleeps between them but not after the last, and
    throws the error of the last call, or [undefined] when [attempts] is
    zero or less and no call is made. *)
Theorem loadMessagesWithRetry_attempts :
  let result := (Frontend.loadMessagesWithRetry load attempts delayMs).1 in
  let actions := (Frontend.loadMessagesWithRetry load attempts delayMs).2 in
  (Frontend.calls actions <= Z.to_nat attempts)%nat
  /\ ((exists k,
         (k < Z.to_nat attempts)%nat
         /\ load k = Frontend.Loaded
         /\ (forall j, (j < k)%nat -> load j <> Frontend.Loaded)
         /\ result = Frontend.Done
         /\ Frontend.calls actions = S k
         /\ Frontend.slept actions = (Z.of_nat k * delayMs)%Z)
      \/ ((forall j, (j < Z.to_nat attempts)%nat -> load j <> Frontend.Loaded)
          /\ Frontend.calls actions = Z.to_nat attempts
          /\ Frontend.slept actions = (Z.max 0 (attempts - 1) * delayMs)%Z
          /\ ((attempts <= 0)%Z -> result = Frontend.Threw None /\ actions = [])
          /\ ((0 < attempts)%Z ->
              exists e, load (Z.to_nat (attempts - 1)) = Frontend.LoadFailed e
                        /\ result = Frontend.Threw (Some e)))).
Proof.
  cbv zeta. unfold Frontend.loadMessagesWithRetry.
  destruct (Z_le_gt_dec attempts 0) as [Hle|Hgt].
  - replace (Z.to_nat attempts) with O by lia. cbn.
    split; [lia|]. right. split; [intros; lia|]. split; [done|].
    split; [lia|]. split; [done|]. intros; lia.
  - destruct (retry_loop_spec (Z.to_nat attempts) O None ltac:(lia))
      as [(k & Hk & Hload & Hbefore & Hres & Hcalls & Hslept)
         |(Hall & Hcalls & Hslept & Hlast)].
    + rewrite Hcalls. split; [lia|]. left. exists k.
      rewrite Nat.sub_0_r in *.
      split; [lia|]. split; [done|]. split; [intros; apply Hbefore; lia|].
      done.
    + rewrite Hcalls. split; [lia|]. right.
      split; [intros; apply Hall; lia|]. split; [done|].
      split; [rewrite Hslept; f_equal; lia|].
      split; [intros; lia|]. intros _.
      destruct (Z.to_nat attempts) as [|n'] eqn:En; [lia|].
      destruct Hlast as (e & He & Hres). exists e. split; [|done].
      rewrite <- He. f_equal. lia.
Qed.

End Retry.

(** ** Who wrote a message, and under what name *)

Section Authorship.
Context {L : Type} {RL : RateLimiter L} {P : Platform}.
Implicit Types (env : Env) (request : Request) (w : World L).

Lemma ensureIdentity_cookies env request1 request2 w :
  cookies request1 = cookies request2 ->
  ensureIdentity env request1 w = ensureIdentity env request2 w.
Proof. intros E. unfold ensureIdentity. by rewrite E. Qed.

(** X17. [POST /messages] reads nothing of a request but its identity
    cookie, its address and the [text] and [displayName] members of its
    body: two requests that agree on these are answered alike and leave
    the same world.  In particular a [username] the client puts in the body
    is ignored; the author is the identity of the cookie. *)
Theorem post_messages_reads_only env request1 request2 w :
  cookies request1 = cookies request2 ->
  ip request1 = ip request2 ->
  optional_member (request_body request1) (lit "text")
  = optional_member (request_body request2) (lit "text") ->
  optional_member (request_body request1) (lit "displayName")
  = optional_member (request_body request2) (lit "displayName") ->
  post_messages env request1 w = post_messages env request2 w.
Proof.
  intros Hc Hip Ht Hn. unfold post_messages, bind.
  rewrite (ensureIdentity_cookies env request1 request2 w Hc).
  by rewrite Ht, Hn, Hip.
Qed.

(** X18. The display name of a created message is a snapshot taken by the
    server: the username resolved for the request when the body's
    [displayName] is [undefined], [null] or a blank string, and the trimmed
    [displayName] when that is a string with 1 to 64 code units after
    trimming.  The author is always the resolved username. *)
Theorem post_messages_display_name env request w resp w' :
  post_messages env request w = (Returned resp, w') ->
  status resp = 201%nat ->
  exists dto u ides,
    body resp = MessageBody dto
    /\ ensureIdentity env request w = (Returned u, after w ides)
    /\ username dto = u
    /\ id dto = uuid env
    /\ (optional_member (request_body request) (lit "displayName") = JUndefined
        \/ optional_member (request_body request) (lit "displayName") = JNull
        \/ (exists s, optional_member (request_body request) (lit "displayName") = JString s
                      /\ trim s = []) ->
        displayName dto = u)
    /\ (forall s,
          optional_member (request_body request) (lit "displayName") = JString s ->
          trim s <> [] ->
          displayName dto = trim s /\ (length (trim s) <= 64)%nat).
Proof.
  intros Hpost Hstatus.
  destruct (post_messages_paths env request w)
    as (u & ides & Hid & Hides & Hpaths).
  destruct Hpaths as [(m0 & Hv & Hp)
                     |[(t0 & n0 & rl & Ht & Hn & Hc & Hp)
                     |[(t0 & n0 & rl & e0 & Ht & Hn & Hc & He & Hp)
                      |(t0 & n0 & rl & Ht & Hn & Hc & He & Hp)]]];
    rewrite Hp in Hpost; injection Hpost as <- <-; cbn [status] in Hstatus;
    try discriminate.
  eexists _, u, ides. split; [reflexivity|]. split; [done|].
  cbn [username id displayName normalizeMessage row_username row_id row_displayName
         default from_option].
  split; [done|]. split; [done|]. split.
  - intros [E | [E | (s & E & Hs)]]; rewrite E in Hn.
    + by injection Hn.
    + by injection Hn.
    + rewrite trimAndValidateDisplayName_string, decide_True in Hn by done.
      by injection Hn.
  - intros s E Hs. rewrite E, trimAndValidateDisplayName_string in Hn.
    rewrite decide_False in Hn by done.
    destruct (decide (64 < length (trim s))%nat); [done|].
    injection Hn as <-. split; [done|lia].
Qed.

End Authorship.

Lemma post_messages_reads_only_witness :
  post_messages (P := example_platform) example_env
    (example_request
       (Frontend.message_body (lit "hello") (lit "Mallory") (lit "Al")))
    example_world
  = post_messages (P := example_platform) example_env
      (example_request
         (JObject [Prop_ (lit "displayName") (JString (lit "Al"));
                   Prop_ (lit "text") (JString (lit "hello"))]))
      example_world.
Proof.
  apply (post_messages_reads_only (P := example_platform)); reflexivity.
Defined.

Lemma post_messages_display_name_witness :
  exists dto u ides,
    body {| status := 201;
            body := MessageBody
                      {| id := lit "id-1"; text := lit "hello";
                         username := lit "Calm-Fox-0001";
                         displayName := lit "Calm-Fox-0001";
                         createdAt := lit "5000" |} |}
    = MessageBody dto
    /\ ensureIdentity (P := example_platform) example_env
         (example_request (JObject [Prop_ (lit "text") (JString (lit "hello"))]))
         example_world
       = (Returned u, after example_world ides)
    /\ username dto = u
    /\ id dto = uuid example_env
    /\ (optional_member (JObject [Prop_ (lit "text") (JString (lit "hello"))])
          (lit "displayName") = JUndefined
        \/ optional_member (JObject [Prop_ (lit "text") (JString (lit "hello"))])
             (lit "displayName") = JNull
        \/ (exists s,
              optional_member (JObject [Prop_ (lit "text") (JString (lit "hello"))])
                (lit "displayName") = JString s
              /\ trim s = []) ->
        displayName dto = u)
    /\ (forall s,
          optional_member (JObject [Prop_ (lit "text") (JString (lit "hello"))])
            (lit "displayName") = JString s ->
          trim s <> [] ->
          displayName dto = trim s /\ (length (trim s) <= 64)%nat).
Proof.
  apply (post_messages_display_name (P := example_platform) example_env
           (example_request (JObject [Prop_ (lit "text") (JString (lit "hello"))]))
           example_world _
           (post_messages (P := example_platform) example_env
              (example_request (JObject [Prop_ (lit "text") (JString (lit "hello"))]))
              example_world).2).
  - vm_compute. reflexivity.
  - reflexivity.
Defined.
